(** * graphite_datadog.glob_utils: glob validation, tokenizing, compilation
      to a regular expression, and the structural prefilter.

    The Python functions of [graphite_datadog/glob_utils.py] are embedded as
    Rocq functions that keep their names.  Python [str] values are [string]s,
    exceptions are the [Raise] results of a small error monad, and Python's
    [None] is [None]. *)

From Stdlib Require Import Bool Ascii String List ZArith Lia.
Import ListNotations.

Local Open Scope string_scope.
Local Open Scope Z_scope.

(** ** Python values and exceptions *)

Inductive exn : Type :=
| UnexpectedCharacter (c : ascii)
| UnexpectedTokenType
| TypeError
| IndexError.

Inductive result (A : Type) : Type :=
| Ok (a : A)
| Raise (e : exn).

Arguments Ok {A} a.
Arguments Raise {A} e.

Definition bind {A B : Type} (r : result A) (f : A -> result B) : result B :=
  match r with
  | Ok a => f a
  | Raise e => Raise e
  end.

Notation "x <- r ;; k" := (bind r (fun x => k))
  (at level 61, r at next level, right associativity).

(** [s + c] for a one-character [c]. *)
Definition snoc (s : string) (c : ascii) : string := s ++ String c EmptyString.

(** [c in s] for a one-character [c]. *)
Fixpoint char_in (c : ascii) (s : string) : bool :=
  match s with
  | EmptyString => false
  | String d s' => Ascii.eqb c d || char_in c s'
  end.

(** ** [_is_valid_glob] *)

Module Validator.

(** The [for c in glob] loop, with the running [depth]; the two early
    [return False] are the [false] leaves. *)
Fixpoint valid_loop (depth : Z) (glob : string) : bool :=
  match glob with
  | EmptyString => depth =? 0
  | String c rest =>
      if Ascii.eqb c "{" then valid_loop (depth + 1) rest
      else if Ascii.eqb c "}" then
        if depth - 1 <? 0 then false else valid_loop (depth - 1) rest
      else if Ascii.eqb c "." then
        if depth >? 0 then false else valid_loop depth rest
      else valid_loop depth rest
  end.

Definition _is_valid_glob (glob : string) : bool := valid_loop 0 glob.

(** The description in words: the brace depth reached after a prefix of the
    raw characters. *)
Fixpoint brace_depth (s : string) : Z :=
  match s with
  | EmptyString => 0
  | String c rest =>
      (if Ascii.eqb c "{" then 1 else if Ascii.eqb c "}" then -1 else 0)
      + brace_depth rest
  end.

Record well_nested (glob : string) : Prop := {
  never_negative : forall pre post, glob = pre ++ post -> 0 <= brace_depth pre;
  ends_at_zero : brace_depth glob = 0;
  no_dot_inside : forall pre post,
      glob = pre ++ String "." post -> brace_depth pre <= 0
}.

End Validator.

(** ** [TokenType] and [tokenize] *)

Inductive TokenType : Type :=
| PATH_SEPARATOR
| LITERAL
| WILD_CHAR
| WILD_SEQUENCE
| WILD_PATH
| CHAR_SELECT_BEGIN
| CHAR_SELECT_NEGATED_BEGIN
| CHAR_SELECT_RANGE_DASH
| CHAR_SELECT_END
| EXPR_SELECT_BEGIN
| EXPR_SELECT_SEPARATOR
| EXPR_SELECT_END.

(** A yielded pair [(token, data)].  The local variable [token] of [tokenize]
    holds [None] or a [TokenType] member, and line 105 yields [None] as data,
    so both components are optional. *)
Definition Token : Type := (option TokenType * option string)%type.

Definition SPECIAL_CHARS : string := ".?*[-]{,}".

(** Enum members are all true, [None] is false. *)
Definition truthy_token (token : option TokenType) : bool :=
  match token with Some _ => true | None => false end.

(** [yield]s made so far, followed by what the rest of the loop yields. *)
Definition yield (ts : list Token) (r : result (list Token))
  : result (list Token) :=
  l <- r ;; Ok (ts ++ l)%list.

(** The [while i + 1 < len(glob)] loop.  [glob] is the part of the pattern
    from index [i + 1] on; the look-ahead branches that do [i += 1] recurse
    on the tail of the tail. *)
Fixpoint tokenize_loop (is_escaped is_char_select : bool) (tmp : string)
    (token : option TokenType) (glob : string) : result (list Token) :=
  match glob with
  | EmptyString =>
      (* Do not forget trailing token, if any *)
      Ok (if truthy_token token then [(token, Some tmp)] else [])
  | String c rest =>
      if is_escaped then
        tokenize_loop false is_char_select (snoc tmp c) token rest
      else if Ascii.eqb c "\" then
        tokenize_loop true is_char_select tmp token rest
      else if negb (char_in c SPECIAL_CHARS)
              || (Ascii.eqb c "-" && negb is_char_select) then
        match token with
        | Some LITERAL | None =>
            tokenize_loop false is_char_select (snoc tmp c) (Some LITERAL) rest
        | Some _ =>
            yield [(token, None)]
              (tokenize_loop false is_char_select (snoc EmptyString c)
                 (Some LITERAL) rest)
        end
      else
        let flushed := if truthy_token token then [(token, Some tmp)] else [] in
        let tmp := if truthy_token token then EmptyString else tmp in
        let token : option TokenType := None in
        let emit (t : TokenType) (ics : bool) (rest : string) :=
          yield (flushed ++ [(Some t, Some EmptyString)])%list
                (tokenize_loop false ics tmp token rest) in
        if Ascii.eqb c "." then emit PATH_SEPARATOR is_char_select rest
        else if Ascii.eqb c "?" then emit WILD_CHAR is_char_select rest
        else if Ascii.eqb c "*" then
          (* Look-ahead for wild path (globstar) *)
          match rest with
          | String d rest' =>
              if Ascii.eqb d "*" then emit WILD_PATH is_char_select rest'
              else emit WILD_SEQUENCE is_char_select rest
          | EmptyString => emit WILD_SEQUENCE is_char_select rest
          end
        else if Ascii.eqb c "[" then
          (* Look-ahead for negated selector (not in) *)
          match rest with
          | String d rest' =>
              if Ascii.eqb d "!" then emit CHAR_SELECT_NEGATED_BEGIN true rest'
              else emit CHAR_SELECT_BEGIN true rest
          | EmptyString => emit CHAR_SELECT_BEGIN true rest
          end
        else if Ascii.eqb c "-" then
          emit CHAR_SELECT_RANGE_DASH is_char_select rest
        else if Ascii.eqb c "]" then emit CHAR_SELECT_END false rest
        else if Ascii.eqb c "{" then emit EXPR_SELECT_BEGIN is_char_select rest
        else if Ascii.eqb c "," then
          emit EXPR_SELECT_SEPARATOR is_char_select rest
        else if Ascii.eqb c "}" then emit EXPR_SELECT_END is_char_select rest
        else
          (* a consumer that drains the generator ends with the exception *)
          Raise (UnexpectedCharacter c)
  end.

Definition tokenize (glob : string) : result (list Token) :=
  tokenize_loop false false EmptyString None glob.

(** ** The part of Python's [re] module that [glob_utils] relies on

    [glob_utils] builds regular expressions as text and hands them to
    [re.compile]; what a pattern means is therefore fixed by [re].  This
    module gives the meaning of the fragment that [glob_to_regex] and
    [_GRAPHITE_GLOB_RE] use, with no flags set: literals, backslash escapes of
    non-alphanumeric characters, [.], character sets with ranges and
    negation, [*] and [+] after a single-character item, groups,
    alternation, [^] and [$]. *)

Module Re.

Definition LF : ascii := "010".

Definition code (c : ascii) : N := N_of_ascii c.

(** ASCII letters and digits: after a backslash these are category or
    numeric escapes, never a literal. *)
Definition is_alnum (c : ascii) : bool :=
  let n := code c in
  ((48 <=? n) && (n <=? 57) || (65 <=? n) && (n <=? 90)
   || (97 <=? n) && (n <=? 122))%N.

(** Items that match one character. *)
Inductive cset : Type :=
| Any                                             (* [.] *)
| Lit (c : ascii)
| Class (negate : bool) (items : list (ascii * ascii)).

Definition in_range (c : ascii) (r : ascii * ascii) : bool :=
  ((code (fst r) <=? code c) && (code c <=? code (snd r)))%N.

(** Without DOTALL the dot matches anything but a line feed; a negated set
    has no such exception. *)
Definition cset_mem (cs : cset) (c : ascii) : bool :=
  match cs with
  | Any => negb (Ascii.eqb c LF)
  | Lit d => Ascii.eqb c d
  | Class negate items => xorb negate (existsb (in_range c) items)
  end.

Inductive regex : Type :=
| Eps
| Bol                                             (* [^] *)
| Eol                                             (* [$] *)
| One (cs : cset)
| Star (cs : cset)
| Cat (r1 r2 : regex)
| Alt (r1 r2 : regex).

(** Without MULTILINE, [$] holds at the end of the string and just before a
    line feed that ends the string. *)
Definition at_end (s : string) : bool :=
  match s with
  | EmptyString => true
  | String c EmptyString => Ascii.eqb c LF
  | _ => false
  end.

(** Backtracking matcher in continuation style.  [bos] tells whether the
    current position is the beginning of the string, [s] is what is left of
    the subject, and [k] is tried on every way to match. *)
Fixpoint star (cs : cset) (k : bool -> string -> bool) (bos : bool) (s : string)
  : bool :=
  k bos s
  || match s with
     | String c s' => cset_mem cs c && star cs k false s'
     | EmptyString => false
     end.

Fixpoint run (r : regex) (bos : bool) (s : string) (k : bool -> string -> bool)
  : bool :=
  match r with
  | Eps => k bos s
  | Bol => bos && k bos s
  | Eol => at_end s && k bos s
  | One cs =>
      match s with
      | String c s' => cset_mem cs c && k false s'
      | EmptyString => false
      end
  | Star cs => star cs k bos s
  | Cat r1 r2 => run r1 bos s (fun bos' s' => run r2 bos' s' k)
  | Alt r1 r2 => run r1 bos s k || run r2 bos s k
  end.

(** [pattern.match(s) is not None]: a match starting at index 0, ending
    anywhere. *)
Definition matches (r : regex) (s : string) : bool :=
  run r true s (fun _ _ => true).

(** *** Parsing the pattern text *)

(** Where the parser stands inside a character set. *)
Inductive cmode : Type :=
| CItem                   (* an item or the closing bracket comes next *)
| CEsc1                   (* a backslash that starts an item was read *)
| CHave (c : ascii)       (* the item [c] was read; a dash may follow *)
| CDash (c : ascii)       (* [c-] was read *)
| CEsc2 (c : ascii).      (* [c-\] was read *)

Inductive mode : Type :=
| Normal
| Esc                     (* a backslash was read *)
| ClassOpen               (* an opening bracket was read *)
| InClass (negate : bool) (items : list (ascii * ascii)) (m : cmode).

(** [seq] holds the items of the alternative being read, newest first;
    [alts] holds the finished alternatives of the group being read, newest
    first; [stack] holds the same two lists for every enclosing group. *)
Record pstate : Type := mkP {
  stack : list (list regex * list regex);
  alts : list regex;
  seq : list regex;
  md : mode
}.

Definition cat_list (l : list regex) : regex := fold_right Cat Eps l.

Definition close_group (alts seq : list regex) : regex :=
  fold_left (fun acc a => Alt a acc) alts (cat_list (rev seq)).

Definition push (r : regex) (st : pstate) : pstate :=
  mkP (stack st) (alts st) (r :: seq st) Normal.

Definition in_class (st : pstate) negate items m : pstate :=
  mkP (stack st) (alts st) (seq st) (InClass negate items m).

(** A character read where a set item may start. *)
Definition class_item (st : pstate) negate (items : list (ascii * ascii))
    (c : ascii) : option pstate :=
  if Ascii.eqb c "]" && negb (match items with [] => true | _ => false end)
  then Some (push (One (Class negate items)) st)
  else if Ascii.eqb c "\" then Some (in_class st negate items CEsc1)
  else Some (in_class st negate items (CHave c)).

Definition class_range (st : pstate) negate (items : list (ascii * ascii))
    (lo hi : ascii) : option pstate :=
  if (code lo <=? code hi)%N
  then Some (in_class st negate (items ++ [(lo, hi)]) CItem)
  else None.

(** One character of the pattern.  [None] stands for [re.error], and for the
    constructs left out of this fragment ([?], braces, category escapes,
    repetition of a group). *)
Definition step (st : pstate) (c : ascii) : option pstate :=
  match md st with
  | Normal =>
      if Ascii.eqb c "\" then Some (mkP (stack st) (alts st) (seq st) Esc)
      else if Ascii.eqb c "." then Some (push (One Any) st)
      else if Ascii.eqb c "[" then
        Some (mkP (stack st) (alts st) (seq st) ClassOpen)
      else if Ascii.eqb c "*" then
        match seq st with
        | One cs :: items =>
            Some (mkP (stack st) (alts st) (Star cs :: items) Normal)
        | _ => None
        end
      else if Ascii.eqb c "+" then
        match seq st with
        | One cs :: items =>
            Some (mkP (stack st) (alts st) (Star cs :: One cs :: items) Normal)
        | _ => None
        end
      else if Ascii.eqb c "?" || Ascii.eqb c "{" then None
      else if Ascii.eqb c "(" then
        Some (mkP ((alts st, seq st) :: stack st) [] [] Normal)
      else if Ascii.eqb c ")" then
        match stack st with
        | (alts0, seq0) :: stack0 =>
            Some (mkP stack0 alts0
                    (close_group (alts st) (seq st) :: seq0) Normal)
        | [] => None
        end
      else if Ascii.eqb c "|" then
        Some (mkP (stack st) (cat_list (rev (seq st)) :: alts st) [] Normal)
      else if Ascii.eqb c "^" then Some (push Bol st)
      else if Ascii.eqb c "$" then Some (push Eol st)
      else Some (push (One (Lit c)) st)
  | Esc => if is_alnum c then None else Some (push (One (Lit c)) st)
  | ClassOpen =>
      if Ascii.eqb c "^" then Some (in_class st true [] CItem)
      else class_item st false [] c
  | InClass negate items CItem => class_item st negate items c
  | InClass negate items CEsc1 =>
      if is_alnum c then None else Some (in_class st negate items (CHave c))
  | InClass negate items (CHave a) =>
      if Ascii.eqb c "-" then Some (in_class st negate items (CDash a))
      else class_item st negate (items ++ [(a, a)]) c
  | InClass negate items (CDash a) =>
      if Ascii.eqb c "]"
      then
        let dash := "-"%char in
        Some (push (One (Class negate (items ++ [(a, a); (dash, dash)]))) st)
      else if Ascii.eqb c "\" then Some (in_class st negate items (CEsc2 a))
      else class_range st negate items a c
  | InClass negate items (CEsc2 a) =>
      if is_alnum c then None else class_range st negate items a c
  end.

Fixpoint parse (st : pstate) (p : string) : option pstate :=
  match p with
  | EmptyString => Some st
  | String c p' =>
      match step st c with
      | Some st' => parse st' p'
      | None => None
      end
  end.

(** [re.compile(p)].  CPython parses and compiles nested groups by
    recursion and raises [RecursionError] beyond a few hundred levels, and
    Python 2.7 refuses a pattern with more than 99 groups; no such bound is
    put here, and the statements below that compile a text with groups
    bound the number of groups themselves. *)
Definition compile (p : string) : option regex :=
  match parse (mkP [] [] [] Normal) p with
  | Some (mkP [] alts seq Normal) => Some (close_group alts seq)
  | _ => None
  end.

(** The characters [re.escape] puts a backslash before (Python 3.7, the
    newest version the package declares): the punctuation below, space, and
    tab, line feed, vertical tab, form feed, carriage return. *)
Definition escaped_punct : string := "()[]{}?*+-|^$\.&~# ".

Definition needs_escape (c : ascii) : bool :=
  char_in c escaped_punct || ((9 <=? code c) && (code c <=? 13))%N.

(** [re.escape(s)] *)
Fixpoint escape (s : string) : string :=
  match s with
  | EmptyString => EmptyString
  | String c s' =>
      if needs_escape c then String "\" (String c (escape s'))
      else String c (escape s')
  end.

End Re.

(** ** [_is_graphite_glob] *)

(** The text given to [re.compile] at module level. *)
Definition _GRAPHITE_GLOB_RE_source : string := "^[^*?{}\[\]]+$".

Definition glob_chars : list (ascii * ascii) :=
  map (fun c : ascii => (c, c)) ["*"; "?"; "{"; "}"; "["; "]"]%char.

(** Its compiled form (see [_GRAPHITE_GLOB_RE_compiled] below). *)
Definition _GRAPHITE_GLOB_RE : Re.regex :=
  Re.Cat Re.Bol
    (Re.Cat (Re.One (Re.Class true glob_chars))
       (Re.Cat (Re.Star (Re.Class true glob_chars)) (Re.Cat Re.Eol Re.Eps))).

Definition _is_graphite_glob (metric_component : string) : bool :=
  negb (Re.matches _GRAPHITE_GLOB_RE metric_component).

(** ** [glob_to_regex] *)

(** The [for token, data in tokenize(glob)] loop with the accumulator [ans].
    [re.escape(None)] is a [TypeError]. *)
Fixpoint compile_loop (ans : string) (tokens : list Token) : result string :=
  match tokens with
  | [] => Ok ans
  | (token, data) :: rest =>
      match token with
      | Some PATH_SEPARATOR => compile_loop (ans ++ Re.escape ".") rest
      | Some LITERAL =>
          match data with
          | Some data => compile_loop (ans ++ Re.escape data) rest
          | None => Raise TypeError
          end
      | Some WILD_CHAR => compile_loop (ans ++ ".") rest
      | Some WILD_SEQUENCE => compile_loop (ans ++ "[^.]*") rest
      | Some WILD_PATH => compile_loop (ans ++ ".*") rest
      | Some CHAR_SELECT_BEGIN => compile_loop (ans ++ "[") rest
      | Some CHAR_SELECT_NEGATED_BEGIN => compile_loop (ans ++ "[^") rest
      | Some CHAR_SELECT_RANGE_DASH => compile_loop (ans ++ "-") rest
      | Some CHAR_SELECT_END => compile_loop (ans ++ "]") rest
      | Some EXPR_SELECT_BEGIN => compile_loop (ans ++ "(") rest
      | Some EXPR_SELECT_SEPARATOR => compile_loop (ans ++ "|") rest
      | Some EXPR_SELECT_END => compile_loop (ans ++ ")") rest
      | None => Raise UnexpectedTokenType
      end
  end.

Definition glob_to_regex (glob : string) : result string :=
  tokens <- tokenize glob ;;
  ans <- compile_loop EmptyString tokens ;;
  Ok ("^" ++ ans ++ "$").

(** ** [glob], the prefilter *)

(** [s.split(".")] *)
Fixpoint split (s : string) : list string :=
  match s with
  | EmptyString => [EmptyString]
  | String c s' =>
      if Ascii.eqb c "." then EmptyString :: split s'
      else match split s' with
           | h :: t => String c h :: t
           | [] => [String c EmptyString]
           end
  end.

(** [len(l)] and [l[i]] for a Python list. *)
Definition llen {A : Type} (l : list A) : Z := Z.of_nat (List.length l).

Definition getitem {A : Type} (l : list A) (i : Z) : result A :=
  let j := if i <? 0 then i + llen l else i in
  if (j <? 0) || (llen l <=? j) then Raise IndexError
  else match nth_error l (Z.to_nat j) with
       | Some a => Ok a
       | None => Raise IndexError
       end.

(** Truth value of [globstar], which is [None] or an [int]. *)
Definition truthy (globstar : option Z) : bool :=
  match globstar with
  | Some i => negb (i =? 0)
  | None => false
  end.

Module Prefilter.

(** The three locals that the [enumerate] loop fills in. *)
Record plan : Type := mkPlan {
  globstar : option Z;
  prefix_literals : list (Z * string);
  suffix_literals : list (Z * string)
}.

(** The loop body at [index], for the components from [index] on;
    [n] is [len(glob_components)]. *)
Fixpoint scan (n index : Z) (components : list string) (p : plan) : plan :=
  match components with
  | [] => p
  | component :: rest =>
      scan n (index + 1) rest
        (if String.eqb component "**" then
           mkPlan (Some index) (prefix_literals p) (suffix_literals p)
         else if truthy (globstar p) then
           mkPlan (globstar p) (prefix_literals p)
             (suffix_literals p ++ [(n - index, component)])
         else if negb (_is_graphite_glob component) then
           mkPlan (globstar p) (prefix_literals p ++ [(index, component)])
             (suffix_literals p)
         else p)
  end.

Definition make_plan (glob_components : list string) : plan :=
  scan (llen glob_components) 0 glob_components (mkPlan None [] []).

(** The [for (index, value) in ...] loop of [maybe_matched_prefilter]. *)
Fixpoint check_literals (metric_components : list string)
    (literals : list (Z * string)) : result bool :=
  match literals with
  | [] => Ok true
  | (index, value) :: rest =>
      c <- getitem metric_components index ;;
      if negb (String.eqb c value) then Ok false
      else check_literals metric_components rest
  end.

Definition maybe_matched_prefilter (glob_components : list string) (p : plan)
    (metric : string) : result bool :=
  let metric_components := split metric in
  if truthy (globstar p)
     && (llen metric_components <? llen glob_components) then Ok false
  else if negb (truthy (globstar p))
          && negb (llen metric_components =? llen glob_components) then Ok false
  else check_literals metric_components
         (suffix_literals p ++ prefix_literals p).

(** [filter(f, names)], drained. *)
Fixpoint filter_r (f : string -> result bool) (names : list string)
  : result (list string) :=
  match names with
  | [] => Ok []
  | m :: rest =>
      b <- f m ;;
      l <- filter_r f rest ;;
      Ok (if b then m :: l else l)
  end.

End Prefilter.

Definition glob (metric_names : list string) (glob_pattern : string)
  : result (list string) :=
  let glob_components := split glob_pattern in
  Prefilter.filter_r
    (Prefilter.maybe_matched_prefilter glob_components
       (Prefilter.make_plan glob_components))
    metric_names.

(** [filter(re.compile(glob_to_regex(p)).match, names)], as in
    [test_glob_to_regex]; [None] when the pattern does not compile. *)
Definition filter_metrics (metrics : list string) (p : string)
  : option (list string) :=
  match glob_to_regex p with
  | Ok text =>
      match Re.compile text with
      | Some r => Some (filter (Re.matches r) metrics)
      | None => None
      end
  | Raise _ => None
  end.


(** ** [finder.py]: [deduplicate] and [metrics_to_nodes] *)

Module Finder.

Section Deduplicate.

Context {A : Type} (eq_dec : forall x y : A, {x = y} + {x <> y}).

(** The [for entry in entries] loop.  [yielded] is the set of what was
    yielded so far; only [in] and [add] are used on it, so a list stands for
    it. *)
Fixpoint deduplicate_loop (yielded entries : list A) : list A :=
  match entries with
  | [] => []
  | entry :: rest =>
      if in_dec eq_dec entry yielded then deduplicate_loop yielded rest
      else entry :: deduplicate_loop (entry :: yielded) rest
  end.

Definition deduplicate (entries : list A) : list A :=
  deduplicate_loop [] entries.

End Deduplicate.

(** ['.'.join(l)] *)
Fixpoint join (l : list string) : string :=
  match l with
  | [] => EmptyString
  | [x] => x
  | x :: rest => x ++ String "." (join rest)
  end.

(** The directories that the first loop of [metrics_to_nodes] adds for one
    metric: ['.'.join(components[:i])] for [i] in
    [range(1, len(components))]. *)
Definition directories_of (metric : string) : list string :=
  let components := split metric in
  map (fun i => join (firstn i components))
      (seq 1 (List.length components - 1)).

(** [graphite.node.BranchNode(path)] and [LeafNode(path, None)]. *)
Inductive Node : Type :=
| BranchNode (path : string)
| LeafNode (path : string).

(** [directories] is a Python [set]; [iterate] gives the order in which a
    set made by adding the elements of a list is iterated, which Python
    leaves open. *)
Definition metrics_to_nodes (iterate : list string -> list string)
    (metrics : list string) (pattern : string) : result (list Node) :=
  let directories := iterate (flat_map directories_of metrics) in
  branches <- glob directories pattern ;;
  leaves <- glob metrics pattern ;;
  Ok (map BranchNode branches ++ map LeafNode leaves)%list.

End Finder.

(** * Vocabulary of the statements *)

(** Every character of [s] satisfies [f]. *)
Fixpoint all_chars (f : ascii -> bool) (s : string) : bool :=
  match s with
  | EmptyString => true
  | String c s' => f c && all_chars f s'
  end.

(** The validator's condition, started at a given depth. *)
Definition well_nested_from (depth : Z) (glob : string) : Prop :=
  (forall pre post,
      glob = pre ++ post -> 0 <= depth + Validator.brace_depth pre)
  /\ depth + Validator.brace_depth glob = 0
  /\ (forall pre post, glob = pre ++ String "." post ->
        depth + Validator.brace_depth pre <= 0).

(** "Contains none of the six characters". *)
Definition no_glob_char (s : string) : Prop :=
  forall c, char_in c s = true -> char_in c "*?{}[]" = false.

(** The local [token] only ever holds [None] or [LITERAL]. *)
Definition pending_ok (token : option TokenType) : Prop :=
  token = None \/ token = Some LITERAL.

(** A yielded pair that [glob_to_regex] can consume: a [TokenType] member
    with a string. *)
Definition token_ok (t : Token) : Prop :=
  (exists k, fst t = Some k) /\ (exists d, snd t = Some d).

Definition flushed (token : option TokenType) (tmp : string) : list Token :=
  if truthy_token token then [(token, Some tmp)] else [].

Definition kept (token : option TokenType) (tmp : string) : string :=
  if truthy_token token then EmptyString else tmp.

(** The item compiled from [text] matches exactly the string [s]. *)
Definition item_matches (text s : string) : Prop :=
  exists r, Re.compile text = Some r
            /\ Re.run r false s (fun _ rest => String.eqb rest EmptyString)
               = true.

(** A character that the tokenizer always reads as literal text, or the
    dot: not the backslash, and none of the special characters other than
    the dot and the dash (a dash is special only inside a character set,
    which such a pattern never opens). *)
Definition plain_char (c : ascii) : bool :=
  negb (Ascii.eqb c "\")
  && (negb (char_in c SPECIAL_CHARS) || Ascii.eqb c "." || Ascii.eqb c "-").

Definition plain_pattern (p : string) : bool := all_chars plain_char p.

(** The items that the escaped text of [q] parses to. *)
Fixpoint lits (q : string) : list Re.regex :=
  match q with
  | EmptyString => []
  | String c q' => Re.One (Re.Lit c) :: lits q'
  end.

(** Index of the first and of the last component equal to the globstar,
    counting from [index]. *)
Fixpoint first_globstar (index : Z) (components : list string) : option Z :=
  match components with
  | [] => None
  | component :: rest =>
      if String.eqb component "**" then Some index
      else first_globstar (index + 1) rest
  end.

Fixpoint last_globstar (index : Z) (components : list string) : option Z :=
  match components with
  | [] => None
  | component :: rest =>
      match last_globstar (index + 1) rest with
      | Some i => Some i
      | None => if String.eqb component "**" then Some index else None
      end
  end.

(** Recorded indices all lie in [0, n). *)
Definition in_bounds (n : Z) (literals : list (Z * string)) : Prop :=
  Forall (fun e => 0 <= fst e < n) literals.

(** What Python guarantees of the iteration order of a set built from a
    list: each element once, and nothing else. *)
Definition set_order (iterate : list string -> list string) : Prop :=
  forall l, NoDup (iterate l) /\ forall x, In x (iterate l) <-> In x l.

(** The decision that [maybe_matched_prefilter] takes on one name. *)
Definition prefilter_keeps (glob_pattern metric : string) : bool :=
  match Prefilter.maybe_matched_prefilter (split glob_pattern)
          (Prefilter.make_plan (split glob_pattern)) metric with
  | Ok b => b
  | Raise _ => false
  end.

(** The pattern text that a token stands for. *)
Definition token_source (t : Token) : string :=
  match t with
  | (Some PATH_SEPARATOR, _) => "."
  | (Some LITERAL, Some data) => data
  | (Some WILD_CHAR, _) => "?"
  | (Some WILD_SEQUENCE, _) => "*"
  | (Some WILD_PATH, _) => "**"
  | (Some CHAR_SELECT_BEGIN, _) => "["
  | (Some CHAR_SELECT_NEGATED_BEGIN, _) => "[!"
  | (Some CHAR_SELECT_RANGE_DASH, _) => "-"
  | (Some CHAR_SELECT_END, _) => "]"
  | (Some EXPR_SELECT_BEGIN, _) => "{"
  | (Some EXPR_SELECT_SEPARATOR, _) => ","
  | (Some EXPR_SELECT_END, _) => "}"
  | _ => EmptyString
  end.

Fixpoint tokens_source (ts : list Token) : string :=
  match ts with
  | [] => EmptyString
  | t :: rest => token_source t ++ tokens_source rest
  end.

(** [e != x] *)
Definition differs {A : Type} (eq_dec : forall x y : A, {x = y} + {x <> y})
    (x e : A) : bool :=
  if eq_dec e x then false else true.

(** No two [LITERAL] tokens in a row. *)
Definition is_literal (t : Token) : bool :=
  match fst t with Some LITERAL => true | _ => false end.

Fixpoint no_adjacent_literals (ts : list Token) : bool :=
  match ts with
  | t :: (u :: _) as rest =>
      negb (is_literal t && is_literal u) && no_adjacent_literals rest
  | _ => true
  end.

(** A [LITERAL] token carries text, any other token carries none. *)
Definition data_ok (t : Token) : bool :=
  match t with
  | (Some LITERAL, Some data) => negb (String.eqb data EmptyString)
  | (Some _, Some data) => String.eqb data EmptyString
  | _ => false
  end.

(** The constraints that the scan records for components that are plain
    literals, numbered from [index]. *)
Fixpoint literal_positions (index : Z) (components : list string)
  : list (Z * string) :=
  match components with
  | [] => []
  | component :: rest =>
      if _is_graphite_glob component then literal_positions (index + 1) rest
      else (index, component) :: literal_positions (index + 1) rest
  end.

(** The regular expression text that [glob_to_regex] puts between the
    anchors for a pattern without backslash and without opening bracket,
    character by character. *)
Fixpoint regex_text (p : string) : string :=
  match p with
  | EmptyString => EmptyString
  | String c rest =>
      if Ascii.eqb c "?" then "." ++ regex_text rest
      else if Ascii.eqb c "*" then
        match rest with
        | String d rest' =>
            if Ascii.eqb d "*" then ".*" ++ regex_text rest'
            else "[^.]*" ++ regex_text rest
        | EmptyString => "[^.]*"
        end
      else if Ascii.eqb c "]" then "]" ++ regex_text rest
      else if Ascii.eqb c "{" then "(" ++ regex_text rest
      else if Ascii.eqb c "," then "|" ++ regex_text rest
      else if Ascii.eqb c "}" then ")" ++ regex_text rest
      else Re.escape (String c EmptyString) ++ regex_text rest
  end.

(** Patterns made of literal characters, dots and single stars: every
    character is plain or a star, and no star follows a star. *)
Fixpoint star_pattern (p : string) : bool :=
  match p with
  | EmptyString => true
  | String c rest =>
      (if Ascii.eqb c "*" then
         match rest with
         | String d _ => negb (Ascii.eqb d "*")
         | EmptyString => true
         end
       else plain_char c)
      && star_pattern rest
  end.

(** The name ends with a line feed. *)
Fixpoint ends_with_lf (s : string) : bool :=
  match s with
  | EmptyString => false
  | String c EmptyString => Ascii.eqb c Re.LF
  | String _ rest => ends_with_lf rest
  end.

(** The pending literal, when there is one, and nothing otherwise. *)
Definition pending_clean (token : option TokenType) (tmp : string) : Prop :=
  (token = None /\ tmp = EmptyString) \/ token = Some LITERAL.

(** The set compiled from the text of a single star: anything but a
    dot. *)
Definition not_dot : Re.cset := Re.Class true [("."%char, "."%char)].

(** The items that the compiled text of a star pattern parses to. *)
Fixpoint items (p : string) : list Re.regex :=
  match p with
  | EmptyString => []
  | String c rest =>
      (if Ascii.eqb c "*" then Re.Star not_dot else Re.One (Re.Lit c))
      :: items rest
  end.

(** A component of a name agrees with a component of the pattern: when the
    latter has none of the six glob characters, they are equal. *)
Definition agrees (pattern_component name_component : string) : Prop :=
  all_chars (fun c => negb (char_in c "*?{}[]")) pattern_component = true ->
  name_component = pattern_component.

(** A character that the tokenizer reads as literal text outside a
    character set: not the backslash, and not special unless it is the
    dash. *)
Definition literal_char (c : ascii) : bool :=
  negb (Ascii.eqb c "\")
  && (negb (char_in c SPECIAL_CHARS) || Ascii.eqb c "-").

(** Both conditions on a token list. *)
Definition shape_ok (l : list Token) : Prop :=
  forallb data_ok l = true /\ no_adjacent_literals l = true.

(** The pending literal is never empty. *)
Definition pending_text (token : option TokenType) (tmp : string) : Prop :=
  token = None \/ (token = Some LITERAL /\ tmp <> EmptyString).

(** Number of occurrences of a character. *)
Fixpoint count_char (c : ascii) (s : string) : nat :=
  match s with
  | EmptyString => 0%nat
  | String d rest =>
      ((if Ascii.eqb d c then 1 else 0) + count_char c rest)%nat
  end.

(** * Properties *)

(** ** Strings *)

Lemma append_nil_r (s : string) : s ++ EmptyString = s.
Proof. induction s as [|c s IH]; simpl; [reflexivity | now rewrite IH]. Qed.

Lemma append_assoc (a b c : string) : (a ++ b) ++ c = a ++ (b ++ c).
Proof. induction a as [|x a IH]; simpl; [reflexivity | now rewrite IH]. Qed.

Lemma snoc_append (a b : string) (c : ascii) : snoc a c ++ b = a ++ String c b.
Proof. unfold snoc. now rewrite append_assoc. Qed.

(** A split of [String c s] either leaves everything to the right or starts
    with [c]. *)
Lemma cons_eq_append (c : ascii) (s pre post : string) :
  String c s = pre ++ post ->
  (pre = EmptyString /\ post = String c s)
  \/ exists pre', pre = String c pre' /\ s = pre' ++ post.
Proof.
  destruct pre as [|d pre']; simpl; intros H.
  - left. now split.
  - right. injection H as -> ->. now exists pre'.
Qed.

(** ** The validator *)

Module ValidatorFacts.
Import Validator.

Lemma well_nested_from_cons depth c glob :
  well_nested_from depth (String c glob) <->
  0 <= depth
  /\ (Ascii.eqb c "." = true -> depth <= 0)
  /\ well_nested_from (depth + brace_depth (String c EmptyString)) glob.
Proof.
  unfold well_nested_from. simpl brace_depth at 4.
  replace (depth + brace_depth (String c glob))
    with (depth + brace_depth (String c EmptyString) + brace_depth glob)
    by (simpl; lia).
  split.
  - intros (Hneg & Hend & Hdot). split; [|split; [|split; [|split]]].
    + specialize (Hneg EmptyString (String c glob) eq_refl). simpl in Hneg. lia.
    + intros Hc. apply Ascii.eqb_eq in Hc. subst c.
      specialize (Hdot EmptyString glob eq_refl). simpl in Hdot. lia.
    + intros pre post ->.
      specialize (Hneg (String c pre) post eq_refl). simpl in *. lia.
    + exact Hend.
    + intros pre post ->.
      specialize (Hdot (String c pre) post eq_refl). simpl in *. lia.
  - intros (H0 & Hc & Hneg & Hend & Hdot). split; [|split].
    + intros pre post E. apply cons_eq_append in E as [[-> _]|(pre' & -> & E)].
      * simpl. lia.
      * specialize (Hneg pre' post E). simpl in *. lia.
    + exact Hend.
    + intros pre post E. apply cons_eq_append in E as [[-> E]|(pre' & -> & E)].
      * injection E as E1 E2. subst c. simpl. specialize (Hc eq_refl). lia.
      * specialize (Hdot pre' post E). simpl in *. lia.
Qed.

Lemma valid_loop_spec glob : forall depth,
  0 <= depth ->
  valid_loop depth glob = true <-> well_nested_from depth glob.
Proof.
  induction glob as [|c glob IH]; intros depth Hd.
  - simpl. rewrite Z.eqb_eq. unfold well_nested_from. simpl. split.
    + intros ->. split; [|split]; [|reflexivity|].
      * intros [|] post; simpl; [lia | discriminate].
      * intros [|] post; simpl; discriminate.
    + intros (_ & H & _). lia.
  - rewrite well_nested_from_cons. simpl.
    destruct (Ascii.eqb c "{") eqn:Eo.
    { apply Ascii.eqb_eq in Eo. subst c. simpl.
      rewrite IH by lia. intuition (try discriminate; try lia). }
    destruct (Ascii.eqb c "}") eqn:Ec.
    { apply Ascii.eqb_eq in Ec. subst c. simpl.
      destruct (depth - 1 <? 0) eqn:El.
      - apply Z.ltb_lt in El. split; [discriminate|].
        intros (_ & _ & Hneg & _).
        specialize (Hneg EmptyString glob eq_refl). simpl in Hneg. lia.
      - apply Z.ltb_ge in El.
        replace (depth + (-1 + 0)) with (depth - 1) by lia.
        rewrite IH by lia. intuition (try discriminate; try lia). }
    replace (depth + (0 + 0)) with depth by lia.
    destruct (Ascii.eqb c ".") eqn:Ep.
    { destruct (depth >? 0) eqn:Eg.
      - apply Z.gtb_lt in Eg. split; [discriminate|]. intros (_ & H & _).
        specialize (H eq_refl). lia.
      - rewrite IH by lia. rewrite Z.gtb_ltb in Eg. apply Z.ltb_ge in Eg.
        intuition. }
    rewrite IH by lia. intuition discriminate.
Qed.

End ValidatorFacts.

(** C8.  [_is_valid_glob] is a total boolean function that answers [true]
    exactly for the patterns in which, reading the raw characters from the
    left, the brace depth never goes below zero, is zero at the end, and is
    not positive at any dot; and it gives the listed answers on the ten
    sample patterns. *)
Theorem C8_is_valid_glob_spec :
  (forall glob,
      Validator._is_valid_glob glob = true <-> Validator.well_nested glob)
  /\ map Validator._is_valid_glob
       ["{"; "{{}"; "{}}"; "}{"; "{a.}.b"; "{a,b.}.{.c,d}.e"]
     = [false; false; false; false; false; false]
  /\ map Validator._is_valid_glob
       ["a.b"; "{a}.b"; "{a,{b,c}}.d"; "{a,b}.{c,d}.e"]
     = [true; true; true; true].
Proof.
  split; [|split; reflexivity].
  intros glob. unfold Validator._is_valid_glob.
  rewrite ValidatorFacts.valid_loop_spec by lia.
  unfold well_nested_from. simpl. split.
  - intros (Hneg & Hend & Hdot). now constructor.
  - intros [Hneg Hend Hdot]. auto.
Qed.

(** ** Regular expressions *)

Module ReFacts.
Import Re.

Lemma all_chars_spec f s :
  all_chars f s = true <-> forall c, char_in c s = true -> f c = true.
Proof.
  induction s as [|d s IH]; simpl.
  - split; [discriminate | reflexivity].
  - rewrite andb_true_iff, IH. split.
    + intros [Hd Hs] c Hc. apply orb_true_iff in Hc as [Hc|Hc]; [|now apply Hs].
      apply Ascii.eqb_eq in Hc. now subst.
    + intros H. split.
      * apply H. now rewrite Ascii.eqb_refl.
      * intros c Hc. apply H. rewrite Hc. apply orb_true_r.
Qed.

Lemma at_end_spec s :
  at_end s = true <-> s = EmptyString \/ s = String LF EmptyString.
Proof.
  destruct s as [|c [|d s]]; simpl.
  - intuition.
  - rewrite Ascii.eqb_eq. split.
    + intros ->. now right.
    + intros [H|H]; [discriminate | now injection H].
  - split; [discriminate | intros [H|H]; discriminate].
Qed.

(** A starred set followed by [$]: when the line feed belongs to the set,
    the subject is taken whole or not at all. *)
Lemma star_then_end cs (Hlf : cset_mem cs LF = true) s : forall bos,
  star cs (fun _ s' => at_end s' && true) bos s = all_chars (cset_mem cs) s.
Proof.
  induction s as [|c s IH]; intros bos; simpl; [reflexivity|].
  rewrite IH. rewrite andb_true_r.
  destruct s as [|d s]; simpl.
  - destruct (Ascii.eqb c LF) eqn:E; simpl; [|now rewrite andb_true_r].
    apply Ascii.eqb_eq in E. subst c. now rewrite Hlf.
  - reflexivity.
Qed.

End ReFacts.

(** The module-level constant is what [re.compile] makes of its text. *)
Lemma _GRAPHITE_GLOB_RE_compiled :
  Re.compile _GRAPHITE_GLOB_RE_source = Some _GRAPHITE_GLOB_RE.
Proof. reflexivity. Qed.

Lemma glob_class_mem (c : ascii) :
  Re.cset_mem (Re.Class true glob_chars) c = negb (char_in c "*?{}[]").
Proof. destruct c as [[] [] [] [] [] [] [] []]; reflexivity. Qed.

Lemma is_graphite_glob_unfold (s : string) :
  negb (_is_graphite_glob s)
  = match s with
    | EmptyString => false
    | String _ _ => all_chars (fun c => negb (char_in c "*?{}[]")) s
    end.
Proof.
  unfold _is_graphite_glob. rewrite negb_involutive.
  unfold Re.matches, _GRAPHITE_GLOB_RE. cbn [Re.run andb].
  destruct s as [|c s]; [reflexivity|].
  rewrite ReFacts.star_then_end by reflexivity. cbn [all_chars].
  rewrite glob_class_mem. f_equal.
  induction s as [|d s IH]; cbn [all_chars]; [reflexivity|].
  now rewrite glob_class_mem, IH.
Qed.

(** C9, as stated, fails at the empty component: it contains none of the six
    characters, yet it is not a plain literal for [_is_graphite_glob]. *)
Lemma C9_empty_component_counterexample :
  ~ (negb (_is_graphite_glob EmptyString) = true <-> no_glob_char EmptyString).
Proof.
  intros [_ H]. assert (E : negb (_is_graphite_glob EmptyString) = true).
  { apply H. intros c Hc. discriminate Hc. }
  discriminate E.
Qed.

(** C9, amended.  A component is a plain literal (that is,
    [_is_graphite_glob] answers [False]) if and only if it is not empty and
    contains none of the characters [*], [?], [{], [}], [[], []]. *)
Theorem C9_plain_literal_iff (s : string) :
  negb (_is_graphite_glob s) = true <-> s <> EmptyString /\ no_glob_char s.
Proof.
  rewrite is_graphite_glob_unfold. unfold no_glob_char.
  destruct s as [|c s].
  - split; [discriminate | intros [H _]; now elim H].
  - rewrite ReFacts.all_chars_spec. split.
    + intros H. split; [discriminate|]. intros d Hd.
      apply negb_true_iff. now apply H.
    + intros [_ H] d Hd. apply negb_true_iff. now apply H.
Qed.

(** ** The tokenizer *)

Module TokenizerFacts.

Lemma flushed_ok token tmp :
  pending_ok token -> Forall token_ok (flushed token tmp).
Proof.
  intros [-> | ->]; unfold flushed; simpl; constructor; [|constructor].
  split; simpl; eauto.
Qed.

Lemma yield_ok ts r :
  Forall token_ok ts ->
  (exists l, r = Ok l /\ Forall token_ok l) ->
  exists l, yield ts r = Ok l /\ Forall token_ok l.
Proof.
  intros Hts (l & -> & Hl). exists (ts ++ l)%list. split; [reflexivity|].
  apply Forall_app. now split.
Qed.

Lemma emit_ok token tmp t r :
  pending_ok token ->
  (exists l, r = Ok l /\ Forall token_ok l) ->
  exists l,
    yield (flushed token tmp ++ [(Some t, Some EmptyString)])%list r = Ok l
            /\ Forall token_ok l.
Proof.
  intros Hp Hr. apply yield_ok; [|exact Hr].
  apply Forall_app. split; [now apply flushed_ok|].
  constructor; [|constructor]. split; simpl; eauto.
Qed.

(** A character that reaches the special-character part of the loop body is
    one of the nine that the [if]/[elif] chain lists. *)
Lemma special_cases (c : ascii) :
  char_in c SPECIAL_CHARS = true ->
  c = "."%char \/ c = "?"%char \/ c = "*"%char \/ c = "["%char \/ c = "-"%char
  \/ c = "]"%char \/ c = "{"%char \/ c = ","%char \/ c = "}"%char.
Proof.
  unfold SPECIAL_CHARS. simpl. rewrite !orb_true_iff, !Ascii.eqb_eq.
  intuition discriminate.
Qed.

(** [tokenize] returns on every input, and what it yields is well formed. *)
Lemma tokenize_loop_total (n : nat) :
  forall glob is_escaped is_char_select tmp token,
  (String.length glob <= n)%nat ->
  pending_ok token ->
  exists l, tokenize_loop is_escaped is_char_select tmp token glob = Ok l
            /\ Forall token_ok l.
Proof.
  induction n as [|n IH]; intros [|c rest] esc ics tmp token Hlen Hp;
    simpl in Hlen; try lia.
  - exists (flushed token tmp). split; [reflexivity | now apply flushed_ok].
  - exists (flushed token tmp). split; [reflexivity | now apply flushed_ok].
  - assert (Hrest : (String.length rest <= n)%nat) by lia.
    assert (Hnone : pending_ok None) by now left.
    assert (Hlit : pending_ok (Some LITERAL)) by now right.
    cbn [tokenize_loop].
    destruct esc; [now apply IH|].
    destruct (Ascii.eqb c "\"); [now apply IH|].
    destruct (negb (char_in c SPECIAL_CHARS)
              || Ascii.eqb c "-" && negb ics) eqn:Hlitc.
    { destruct Hp as [-> | ->]; now apply IH. }
    apply orb_false_iff in Hlitc as [Hspec Hdash].
    apply negb_false_iff in Hspec.
    fold (flushed token tmp). fold (kept token tmp).
    destruct (special_cases c Hspec)
      as [->|[->|[->|[->|[->|[->|[->|[->| ->]]]]]]]];
      cbn [Ascii.eqb Bool.eqb];
      try (apply emit_ok; [exact Hp | now apply IH]).
    + destruct rest as [|d rest'].
      * apply emit_ok; [exact Hp | now apply IH].
      * simpl in Hrest.
        destruct (Ascii.eqb d "*");
          (apply emit_ok; [exact Hp | apply IH; simpl; auto; lia]).
    + destruct rest as [|d rest'].
      * apply emit_ok; [exact Hp | now apply IH].
      * simpl in Hrest.
        destruct (Ascii.eqb d "!");
          (apply emit_ok; [exact Hp | apply IH; simpl; auto; lia]).
Qed.

Lemma tokenize_total (glob : string) :
  exists l, tokenize glob = Ok l /\ Forall token_ok l.
Proof.
  apply (tokenize_loop_total (String.length glob)); [lia | now left].
Qed.

End TokenizerFacts.

(** ** The compiler *)

Module CompilerFacts.
Import TokenizerFacts.

Lemma compile_loop_total tokens : forall ans,
  Forall token_ok tokens -> exists text, compile_loop ans tokens = Ok text.
Proof.
  induction tokens as [|[token data] rest IH]; intros ans H.
  - now exists ans.
  - inversion H as [|? ? [[k Hk] [d Hd]] Hrest]; subst. simpl in Hk, Hd. subst.
    destruct k; simpl; now apply IH.
Qed.

Lemma compile_loop_app l1 : forall ans l2,
  compile_loop ans (l1 ++ l2)
  = (a <- compile_loop ans l1 ;; compile_loop a l2).
Proof.
  induction l1 as [|[token data] l1 IH]; intros ans l2; [reflexivity|].
  destruct token as [[]|]; simpl; try apply IH; try reflexivity.
  destruct data; [apply IH | reflexivity].
Qed.

Lemma glob_to_regex_total (glob : string) :
  exists body, glob_to_regex glob = Ok ("^" ++ body ++ "$").
Proof.
  unfold glob_to_regex.
  destruct (tokenize_total glob) as (tokens & -> & Hok). simpl.
  destruct (compile_loop_total tokens EmptyString Hok) as (body & ->). simpl.
  now exists body.
Qed.

End CompilerFacts.

(** C10.  For every input string [tokenize] returns a token list without
    raising, every token it yields carries one of the twelve [TokenType]
    members, and [glob_to_regex] returns a string without raising. *)
Theorem C10_pipeline_total (glob : string) :
  (exists tokens,
      tokenize glob = Ok tokens
      /\ Forall (fun t : Token => exists k, fst t = Some k) tokens)
  /\ (exists text, glob_to_regex glob = Ok text).
Proof.
  split.
  - destruct (TokenizerFacts.tokenize_total glob) as (tokens & E & Hok).
    exists tokens. split; [exact E|].
    eapply Forall_impl; [|exact Hok]. intros t [Hk _]. exact Hk.
  - destruct (CompilerFacts.glob_to_regex_total glob) as (body & E).
    eauto.
Qed.

(** C5, at failing inputs.  For the six-character pattern made of an
    opening brace, [a], a comma, a backslash, [b] and a closing brace, and
    for the two-character pattern backslash-[b], the escaped [b] is in no
    yielded token: an escaped character met while no literal is pending is
    put in [tmp] but [token] stays [None], so nothing flushes it.  It only
    reaches a token when a literal character follows before the next special
    character, as in backslash-backslash-[b]; otherwise it is lost at the end
    of the input, or joins a later literal run after the tokens in between,
    as in backslash-[a], star, [b]. *)
Theorem C5_escaped_character_dropped :
  tokenize "{a,\b}"
  = Ok [(Some EXPR_SELECT_BEGIN, Some EmptyString);
        (Some LITERAL, Some "a");
        (Some EXPR_SELECT_SEPARATOR, Some EmptyString);
        (Some EXPR_SELECT_END, Some EmptyString)]
  /\ glob_to_regex "{a,\b}" = Ok "^(a|)$"
  /\ tokenize "\b" = Ok []
  /\ tokenize "\\b" = Ok [(Some LITERAL, Some "\b")]
  /\ tokenize "\a*b"
     = Ok [(Some WILD_SEQUENCE, Some EmptyString); (Some LITERAL, Some "ab")].
Proof. repeat split. Qed.

(** ** Wildcards *)

Module WildcardFacts.
Import Re ReFacts.

Lemma star_whole cs s : forall bos,
  star cs (fun _ rest => String.eqb rest EmptyString) bos s
  = all_chars (cset_mem cs) s.
Proof.
  induction s as [|c s IH]; intros bos; simpl; [reflexivity|]. now rewrite IH.
Qed.

Lemma all_chars_other (d : ascii) (s : string) :
  all_chars (fun c => negb (Ascii.eqb c d)) s = negb (char_in d s).
Proof.
  induction s as [|c s IH]; simpl; [reflexivity|].
  rewrite IH, negb_orb. now rewrite (Ascii.eqb_sym c d).
Qed.

Lemma not_dot_mem (c : ascii) :
  cset_mem (Class true [("."%char, "."%char)]) c = negb (Ascii.eqb c ".").
Proof. destruct c as [[] [] [] [] [] [] [] []]; reflexivity. Qed.

Lemma all_chars_ext f g s :
  (forall c, f c = g c) -> all_chars f s = all_chars g s.
Proof.
  intros H. induction s as [|c s IH]; simpl; [reflexivity|].
  now rewrite H, IH.
Qed.

Lemma any_mem s : all_chars (cset_mem Any) s = negb (char_in LF s).
Proof. apply all_chars_other. Qed.

Lemma not_dot_all s :
  all_chars (cset_mem (Class true [("."%char, "."%char)])) s
  = negb (char_in "." s).
Proof. rewrite (all_chars_ext _ _ s not_dot_mem). apply all_chars_other. Qed.

Lemma item_matches_eq text r s :
  compile text = Some r ->
  item_matches text s
  <-> run r false s (fun _ rest => String.eqb rest EmptyString) = true.
Proof.
  intros E. unfold item_matches. split.
  - intros (r' & E' & H). congruence.
  - intros H. now exists r.
Qed.

Lemma wild_path_item s : item_matches ".*" s <-> char_in LF s = false.
Proof.
  rewrite (item_matches_eq ".*" (Cat (Star Any) Eps)) by reflexivity.
  cbn [run]. now rewrite star_whole, any_mem, negb_true_iff.
Qed.

Lemma wild_sequence_item s : item_matches "[^.]*" s <-> char_in "." s = false.
Proof.
  rewrite (item_matches_eq "[^.]*"
             (Cat (Star (Class true [("."%char, "."%char)])) Eps))
    by reflexivity.
  cbn [run]. now rewrite star_whole, not_dot_all, negb_true_iff.
Qed.

Lemma wild_char_item s :
  item_matches "." s <-> exists c, s = String c EmptyString /\ c <> LF.
Proof.
  rewrite (item_matches_eq "." (Cat (One Any) Eps)) by reflexivity.
  cbn [run cset_mem]. split.
  - destruct s as [|c [|d s]]; simpl; try discriminate.
    + intros H. exists c. split; [reflexivity|]. intros ->. discriminate.
    + now rewrite andb_false_r.
  - intros (c & -> & Hc). simpl.
    rewrite andb_true_r. apply negb_true_iff. now apply Ascii.eqb_neq.
Qed.

End WildcardFacts.

(** C6, as stated, fails at the line feed: the pattern [?] compiles to a
    regular expression that does not match the one-character name made of a
    line feed. *)
Lemma C6_line_feed_counterexample :
  glob_to_regex "?" = Ok "^.$"
  /\ filter_metrics [String Re.LF EmptyString] "?" = Some [].
Proof. split; reflexivity. Qed.

(** C6, amended.  An unescaped pair of stars is consumed as one [WILD_PATH]
    token, compiled to an item that matches any sequence of characters other
    than the line feed, the dot included; a star that no star follows becomes
    [WILD_SEQUENCE], compiled to an item that matches zero or more
    characters none of which is the dot; a question mark becomes
    [WILD_CHAR], compiled to an item that matches any single character other
    than the line feed, the dot included. *)
Theorem C6_wildcards :
  (* tokens *)
  (forall ics tmp token rest,
      tokenize_loop false ics tmp token (String "*" (String "*" rest))
      = yield (flushed token tmp
                 ++ [(Some WILD_PATH, Some EmptyString)])%list
          (tokenize_loop false ics (kept token tmp) None rest))
  /\ (forall ics tmp token rest,
      (forall rest', rest <> String "*" rest') ->
      tokenize_loop false ics tmp token (String "*" rest)
      = yield (flushed token tmp
                 ++ [(Some WILD_SEQUENCE, Some EmptyString)])%list
          (tokenize_loop false ics (kept token tmp) None rest))
  /\ (forall ics tmp token rest,
      tokenize_loop false ics tmp token (String "?" rest)
      = yield (flushed token tmp
                 ++ [(Some WILD_CHAR, Some EmptyString)])%list
          (tokenize_loop false ics (kept token tmp) None rest))
  (* compiled text *)
  /\ (forall ans data rest,
      compile_loop ans ((Some WILD_PATH, data) :: rest)
      = compile_loop (ans ++ ".*") rest)
  /\ (forall ans data rest,
      compile_loop ans ((Some WILD_SEQUENCE, data) :: rest)
      = compile_loop (ans ++ "[^.]*") rest)
  /\ (forall ans data rest,
      compile_loop ans ((Some WILD_CHAR, data) :: rest)
      = compile_loop (ans ++ ".") rest)
  (* meaning *)
  /\ (forall s, item_matches ".*" s <-> char_in Re.LF s = false)
  /\ (forall s, item_matches "[^.]*" s <-> char_in "." s = false)
  /\ (forall s, item_matches "." s
                <-> exists c, s = String c EmptyString /\ c <> Re.LF)
  /\ item_matches ".*" "a.b"
  /\ item_matches "." ".".
Proof.
  repeat match goal with |- _ /\ _ => split end.
  - reflexivity.
  - intros ics tmp token rest Hrest. cbn [tokenize_loop].
    cbn [Ascii.eqb Bool.eqb char_in SPECIAL_CHARS orb andb negb].
    destruct rest as [|d rest']; [reflexivity|].
    destruct (Ascii.eqb d "*") eqn:E; [|reflexivity].
    apply Ascii.eqb_eq in E. subst d. now elim (Hrest rest').
  - reflexivity.
  - reflexivity.
  - reflexivity.
  - reflexivity.
  - apply WildcardFacts.wild_path_item.
  - apply WildcardFacts.wild_sequence_item.
  - apply WildcardFacts.wild_char_item.
  - apply WildcardFacts.wild_path_item. reflexivity.
  - apply WildcardFacts.wild_char_item. eexists. split; [reflexivity|].
    discriminate.
Qed.

Lemma C6_wildcards_witness :
  tokenize_loop false false "a" (Some LITERAL) "*b"
  = yield (flushed (Some LITERAL) "a"
             ++ [(Some WILD_SEQUENCE, Some EmptyString)])%list
      (tokenize_loop false false
         (kept (Some LITERAL) "a") None "b").
Proof.
  apply (proj1 (proj2 C6_wildcards)). intros rest'. discriminate.
Defined.

(** ** Patterns without metacharacters *)

Module PlainFacts.
Import Re ReFacts.

Lemma escape_app a b : escape (a ++ b) = escape a ++ escape b.
Proof.
  induction a as [|c a IH]; simpl; [reflexivity|].
  destruct (needs_escape c); simpl; now rewrite IH.
Qed.

Lemma yield_then ts l ans :
  (toks <- yield ts (Ok l) ;; compile_loop ans toks)
  = (a <- compile_loop ans ts ;; compile_loop a l).
Proof. apply CompilerFacts.compile_loop_app. Qed.

(** On a plain pattern the tokens compile to the escaped pattern. *)
Lemma plain_loop rest : forall tmp token ans,
  plain_pattern rest = true ->
  (token = None /\ tmp = EmptyString) \/ token = Some LITERAL ->
  (toks <- tokenize_loop false false tmp token rest ;; compile_loop ans toks)
  = Ok (ans ++ escape (tmp ++ rest)).
Proof.
  induction rest as [|c rest IH]; intros tmp token ans Hp Htok.
  - destruct Htok as [[-> ->] | ->]; simpl.
    + now rewrite append_nil_r.
    + now rewrite append_nil_r.
  - unfold plain_pattern in Hp. simpl in Hp.
    apply andb_true_iff in Hp as [Hc Hrest].
    apply andb_true_iff in Hc as [Hbs Hc]. apply negb_true_iff in Hbs.
    cbn [tokenize_loop]. rewrite Hbs. rewrite andb_true_r.
    destruct (negb (char_in c SPECIAL_CHARS) || Ascii.eqb c "-") eqn:Hlit.
    + assert (E : tokenize_loop false false (snoc tmp c) (Some LITERAL) rest
                  = match token with
                    | Some LITERAL | None =>
                        tokenize_loop false false (snoc tmp c)
                          (Some LITERAL) rest
                    | Some _ =>
                        yield [(token, None)]
                          (tokenize_loop false false (snoc EmptyString c)
                             (Some LITERAL) rest)
                    end).
      { destruct Htok as [[-> _] | ->]; reflexivity. }
      rewrite <- E. rewrite IH by (auto; now right).
      now rewrite snoc_append.
    + apply orb_false_iff in Hlit as [Hspec Hdash].
      rewrite Hspec, Hdash in Hc. cbn [negb orb] in Hc.
      rewrite orb_false_r in Hc.
      rewrite Hc. apply Ascii.eqb_eq in Hc. subst c.
      assert (Hnext := fun a =>
        IH EmptyString None a Hrest (or_introl (conj eq_refl eq_refl))).
      assert (Ek : kept token tmp = EmptyString).
      { destruct Htok as [[-> ->] | ->]; reflexivity. }
      fold (kept token tmp). rewrite Ek.
      destruct (tokenize_loop false false EmptyString None rest) as [l|e];
        [|discriminate (Hnext EmptyString)].
      rewrite yield_then, CompilerFacts.compile_loop_app.
      destruct Htok as [[-> ->] | ->]; cbn [truthy_token app compile_loop bind].
      * cbn [bind] in Hnext. rewrite Hnext. f_equal.
        rewrite append_assoc. reflexivity.
      * cbn [bind] in Hnext. rewrite Hnext. f_equal.
        rewrite (escape_app tmp), !append_assoc. reflexivity.
Qed.

Lemma plain_glob_to_regex p :
  plain_pattern p = true -> glob_to_regex p = Ok ("^" ++ escape p ++ "$").
Proof.
  intros Hp. unfold glob_to_regex, tokenize.
  pose proof (plain_loop p EmptyString None EmptyString Hp
                (or_introl (conj eq_refl eq_refl))) as H.
  destruct (tokenize_loop false false EmptyString None p) as [toks|e];
    simpl in *; [|discriminate].
  now rewrite H.
Qed.

Lemma escaped_not_alnum c : needs_escape c = true -> is_alnum c = false.
Proof.
  destruct c as [[] [] [] [] [] [] [] []]; vm_compute; intros H;
    try reflexivity; discriminate H.
Qed.

Lemma step_unescaped stk al sq c :
  needs_escape c = false ->
  step (mkP stk al sq Normal) c = Some (mkP stk al (One (Lit c) :: sq) Normal).
Proof.
  destruct c as [[] [] [] [] [] [] [] []]; vm_compute; intros H;
    try reflexivity; discriminate H.
Qed.

Lemma parse_escape q : forall stk al sq tail,
  parse (mkP stk al sq Normal) (escape q ++ tail)
  = parse (mkP stk al (rev (lits q) ++ sq) Normal) tail.
Proof.
  induction q as [|c q IH]; intros stk al sq tail; [reflexivity|].
  cbn [escape lits rev]. rewrite <- app_assoc. cbn [app].
  destruct (needs_escape c) eqn:E.
  - cbn [append parse]. change (step (mkP stk al sq Normal) "\")
      with (Some (mkP stk al sq Esc)). cbn iota.
    cbn [parse step md]. rewrite (escaped_not_alnum c E). apply IH.
  - cbn [append parse]. rewrite (step_unescaped _ _ _ _ E). apply IH.
Qed.

Lemma compile_escape p :
  compile ("^" ++ escape p ++ "$") = Some (cat_list (Bol :: lits p ++ [Eol])).
Proof.
  unfold compile. cbn [append parse].
  change (step (mkP [] [] [] Normal) "^") with (Some (mkP [] [] [Bol] Normal)).
  cbn iota. rewrite parse_escape. cbn [parse].
  change (step (mkP [] [] (rev (lits p) ++ [Bol]) Normal) "$")
    with (Some (mkP [] [] (Eol :: rev (lits p) ++ [Bol]) Normal)).
  cbn iota. unfold close_group. cbn [fold_left rev].
  rewrite rev_app_distr, rev_involutive. reflexivity.
Qed.

Lemma run_lits p : forall s bos,
  run (cat_list (lits p ++ [Eol])) bos s (fun _ _ => true) = true
  <-> s = p \/ s = p ++ String LF EmptyString.
Proof.
  induction p as [|c p IH]; intros s bos.
  - cbn. rewrite andb_true_r. apply at_end_spec.
  - cbn [lits app cat_list fold_right run cset_mem].
    destruct s as [|d s].
    + split; [discriminate | intros [H|H]; discriminate].
    + fold (cat_list (lits p ++ [Eol])).
      rewrite andb_true_iff, Ascii.eqb_eq, IH. simpl. split.
      * intros [-> [-> | ->]]; auto.
      * intros [H|H]; injection H as -> ->; auto.
Qed.

(** What the regular expression compiled from a plain pattern matches. *)
Lemma plain_language p s :
  matches (cat_list (Bol :: lits p ++ [Eol])) s = true
  <-> s = p \/ s = p ++ String LF EmptyString.
Proof.
  unfold matches. cbn [cat_list fold_right run andb]. apply run_lits.
Qed.

End PlainFacts.

(** C7, at a failing input.  For the plain pattern [a], [glob_to_regex]
    returns [^a$].  Used with [match], as [test_glob_to_regex] does, the
    compiled regular expression matches the name [a] and also the name made
    of [a] and a line feed, which is another string: the end anchor also
    holds just before a line feed that ends the name, so the match does
    not cover the whole string. *)
Theorem C7_line_feed_after_literal_matched :
  plain_pattern "a" = true
  /\ glob_to_regex "a" = Ok "^a$"
  /\ filter_metrics ["a"; String "a" (String Re.LF EmptyString); "ab"] "a"
     = Some ["a"; String "a" (String Re.LF EmptyString)].
Proof. repeat split. Qed.

(** ** The prefilter *)

Module PrefilterFacts.
Import Prefilter.

Lemma scan_globstar components : forall n index p,
  globstar (scan n index components p)
  = match last_globstar index components with
    | Some i => Some i
    | None => globstar p
    end.
Proof.
  induction components as [|c rest IH]; intros n index p; [reflexivity|].
  cbn [scan last_globstar]. rewrite IH.
  destruct (last_globstar (index + 1) rest); [reflexivity|].
  destruct (String.eqb c "**"); [reflexivity|].
  destruct (truthy (globstar p)); [reflexivity|].
  destruct (negb (_is_graphite_glob c)); reflexivity.
Qed.

Lemma make_plan_globstar components :
  globstar (make_plan components) = last_globstar 0 components.
Proof.
  unfold make_plan. rewrite scan_globstar.
  now destruct (last_globstar 0 components).
Qed.

(** What [last_globstar] returns is the position of a globstar with no
    globstar after it. *)
Lemma last_globstar_spec components : forall index i,
  last_globstar index components = Some i ->
  index <= i
  /\ nth_error components (Z.to_nat (i - index)) = Some "**"
  /\ forall j, i < j ->
       nth_error components (Z.to_nat (j - index)) <> Some "**".
Proof.
  induction components as [|c rest IH]; intros index i H; [discriminate|].
  cbn [last_globstar] in H.
  destruct (last_globstar (index + 1) rest) as [k|] eqn:E.
  - injection H as ->. destruct (IH _ _ E) as (Hle & Hnth & Hlast).
    split; [lia|]. split.
    + replace (Z.to_nat (i - index)) with (S (Z.to_nat (i - (index + 1))))
        by lia. exact Hnth.
    + intros j Hj.
      replace (Z.to_nat (j - index)) with (S (Z.to_nat (j - (index + 1))))
        by lia. now apply Hlast.
  - destruct (String.eqb c "**") eqn:Ec; [|discriminate].
    injection H as <-. apply String.eqb_eq in Ec. subst c.
    split; [lia|]. split.
    + now replace (index - index) with 0 by lia.
    + intros j Hj.
      replace (Z.to_nat (j - index)) with (S (Z.to_nat (j - (index + 1))))
        by lia. cbn [nth_error]. intros Hnth.
      clear IH. revert Hnth E. generalize (Z.to_nat (j - (index + 1))).
      generalize (index + 1). clear.
      induction rest as [|d rest IH]; intros idx k Hnth E.
      * now destruct k.
      * cbn [last_globstar] in E.
        destruct (last_globstar (idx + 1) rest) eqn:E'; [discriminate|].
        destruct k as [|k]; cbn [nth_error] in Hnth.
        -- injection Hnth as ->. discriminate.
        -- now apply (IH (idx + 1) k).
Qed.

Lemma last_globstar_none components : forall index,
  In "**" components -> last_globstar index components <> None.
Proof.
  induction components as [|c rest IH]; intros index Hin; [contradiction|].
  cbn [last_globstar]. destruct Hin as [-> | Hin].
  - destruct (last_globstar (index + 1) rest); discriminate.
  - specialize (IH (index + 1) Hin).
    destruct (last_globstar (index + 1) rest); [discriminate | contradiction].
Qed.

Lemma last_globstar_in components : forall index i,
  last_globstar index components = Some i -> In "**" components.
Proof.
  intros index i H. destruct (last_globstar_spec _ _ _ H) as (_ & Hnth & _).
  eapply nth_error_In. exact Hnth.
Qed.

(** When there are two globstars, the first one has another after it. *)
Lemma first_has_later components : forall index i,
  (1 < count_occ string_dec components "**")%nat ->
  first_globstar index components = Some i ->
  exists j, i < j
            /\ nth_error components (Z.to_nat (j - index)) = Some "**".
Proof.
  induction components as [|c l IH]; intros idx i Hcount Hfirst;
    [simpl in Hcount; lia|].
  cbn [first_globstar] in Hfirst. cbn [count_occ] in Hcount.
  destruct (String.eqb c "**") eqn:Ec.
  - injection Hfirst as <-. apply String.eqb_eq in Ec. subst c.
    destruct (string_dec "**" "**") as [_|n]; [|now elim n].
    assert (Hin : In "**" l) by (apply (count_occ_In string_dec); lia).
    apply In_nth_error in Hin as [k Hk].
    exists (idx + 1 + Z.of_nat k). split; [lia|].
    replace (Z.to_nat (idx + 1 + Z.of_nat k - idx)) with (S k) by lia.
    exact Hk.
  - apply String.eqb_neq in Ec.
    destruct (string_dec c "**") as [e|_]; [now elim Ec|].
    destruct (IH (idx + 1) i Hcount Hfirst) as (j & Hj & Hnth).
    exists j. split; [exact Hj|].
    assert (idx + 1 <= i).
    { clear -Hfirst. revert Hfirst. generalize (idx + 1). clear.
      induction l as [|d l IHl]; intros k H; [discriminate|].
      cbn [first_globstar] in H. destruct (String.eqb d "**").
      - injection H as <-. lia.
      - specialize (IHl _ H). lia. }
    replace (Z.to_nat (j - idx)) with (S (Z.to_nat (j - (idx + 1)))) by lia.
    exact Hnth.
Qed.

Lemma filter_r_in f names : forall kept m,
  filter_r f names = Ok kept -> In m kept -> In m names /\ f m = Ok true.
Proof.
  induction names as [|x names IH]; intros kept m H Hin.
  - injection H as <-. contradiction.
  - cbn [filter_r bind] in H.
    destruct (f x) as [b|] eqn:Ex; [|discriminate]. cbn [bind] in H.
    destruct (filter_r f names) as [l|]; [|discriminate]. cbn [bind] in H.
    injection H as <-.
    destruct b.
    + destruct Hin as [<- | Hin]; [split; [now left | exact Ex]|].
      destruct (IH l m eq_refl Hin). split; [now right | assumption].
    + destruct (IH l m eq_refl Hin). split; [now right | assumption].
Qed.

End PrefilterFacts.

(** C3.  A name that the prefilter keeps has exactly as many dot-separated
    components as the pattern when no component of the pattern is the
    globstar, and at least as many when some component is, whatever its
    index. *)
Theorem C3_component_count_check
    (metric_names : list string) (glob_pattern : string)
    (kept : list string) (m : string) :
  glob metric_names glob_pattern = Ok kept ->
  In m kept ->
  (~ In "**" (split glob_pattern) ->
     llen (split m) = llen (split glob_pattern))
  /\ (In "**" (split glob_pattern) ->
     llen (split glob_pattern) <= llen (split m)).
Proof.
  unfold glob. intros H Hin.
  destruct (PrefilterFacts.filter_r_in _ _ _ _ H Hin) as [_ Hm].
  unfold Prefilter.maybe_matched_prefilter in Hm.
  rewrite PrefilterFacts.make_plan_globstar in Hm.
  destruct (truthy (last_globstar 0 (split glob_pattern))) eqn:Et;
    cbn [andb negb] in Hm.
  - destruct (llen (split m) <? llen (split glob_pattern)) eqn:El;
      [discriminate|]. apply Z.ltb_ge in El. split; [|auto].
    intros Hno. exfalso. apply Hno.
    destruct (last_globstar 0 (split glob_pattern)) as [i|] eqn:E;
      [|discriminate]. eapply PrefilterFacts.last_globstar_in. exact E.
  - destruct (llen (split m) =? llen (split glob_pattern)) eqn:El;
      [|discriminate]. apply Z.eqb_eq in El. split; intros _; lia.
Qed.

Lemma C3_component_count_check_witness :
  (~ In "**" (split "a.*") -> llen (split "a.b") = llen (split "a.*"))
  /\ (In "**" (split "a.*") -> llen (split "a.*") <= llen (split "a.b")).
Proof.
  apply (C3_component_count_check ["a"; "a.b"; "a.b.c"] "a.*" ["a.b"] "a.b").
  - reflexivity.
  - simpl. auto.
Defined.

(** C4, as stated, fails when a pattern has two globstars: with components
    [a], globstar, [b], globstar, the first globstar has index 1 and the
    recorded index is 3. *)
Lemma C4_first_occurrence_counterexample :
  (1 < count_occ string_dec (split "a.**.b.**") "**")%nat
  /\ first_globstar 0 (split "a.**.b.**") = Some 1
  /\ Prefilter.globstar (Prefilter.make_plan (split "a.**.b.**")) = Some 3.
Proof. repeat split. apply Nat.lt_succ_diag_r. Qed.

(** C4, amended.  When more than one component of the pattern is the
    globstar, the index that the prefilter records is that of the last such
    component: each globstar met by the scan overwrites the index recorded
    before. *)
Theorem C4_last_occurrence_recorded (glob_pattern : string) :
  (1 < count_occ string_dec (split glob_pattern) "**")%nat ->
  exists i,
    Prefilter.globstar (Prefilter.make_plan (split glob_pattern)) = Some i
    /\ 0 <= i
    /\ nth_error (split glob_pattern) (Z.to_nat i) = Some "**"
    /\ (forall j, i < j ->
          nth_error (split glob_pattern) (Z.to_nat j) <> Some "**")
    /\ first_globstar 0 (split glob_pattern) <> Some i.
Proof.
  intros Hcount. rewrite PrefilterFacts.make_plan_globstar.
  assert (Hin : In "**" (split glob_pattern)).
  { apply (count_occ_In string_dec). lia. }
  destruct (last_globstar 0 (split glob_pattern)) as [i|] eqn:E;
    [|now elim (PrefilterFacts.last_globstar_none _ 0 Hin)].
  exists i. destruct (PrefilterFacts.last_globstar_spec _ _ _ E)
    as (Hle & Hnth & Hlast).
  rewrite Z.sub_0_r in Hnth.
  split; [reflexivity|]. split; [exact Hle|]. split; [exact Hnth|]. split.
  - intros j Hj. specialize (Hlast j Hj). now rewrite Z.sub_0_r in Hlast.
  - intros Hfirst.
    destruct (PrefilterFacts.first_has_later _ 0 i Hcount Hfirst)
      as (j & Hj & Hnthj).
    now apply (Hlast j Hj).
Qed.

Lemma C4_last_occurrence_recorded_witness :
  exists i,
    Prefilter.globstar (Prefilter.make_plan (split "a.**.b.**")) = Some i
    /\ 0 <= i
    /\ nth_error (split "a.**.b.**") (Z.to_nat i) = Some "**"
    /\ (forall j, i < j ->
          nth_error (split "a.**.b.**") (Z.to_nat j) <> Some "**")
    /\ first_globstar 0 (split "a.**.b.**") <> Some i.
Proof.
  apply (C4_last_occurrence_recorded "a.**.b.**").
  apply Nat.lt_succ_diag_r.
Defined.

(** The prefilter never indexes a name out of range. *)
Module PrefilterTotal.
Import Prefilter.

Lemma in_bounds_snoc n literals i v :
  in_bounds n literals -> 0 <= i < n -> in_bounds n (literals ++ [(i, v)]).
Proof.
  intros H Hi. apply Forall_app. split; [exact H|]. now repeat constructor.
Qed.

Lemma llen_cons {A} (a : A) l : llen (a :: l) = 1 + llen l.
Proof. unfold llen. cbn [List.length]. lia. Qed.

Lemma llen_nonneg {A} (l : list A) : 0 <= llen l.
Proof. unfold llen. lia. Qed.

Lemma scan_bounds components : forall n index p,
  0 <= index ->
  index + llen components = n ->
  (forall g, globstar p = Some g -> 0 <= g < index) ->
  in_bounds n (prefix_literals p) ->
  in_bounds n (suffix_literals p) ->
  in_bounds n (prefix_literals (scan n index components p))
  /\ in_bounds n (suffix_literals (scan n index components p)).
Proof.
  induction components as [|c rest IH]; intros n index p Hi Hn Hg Hpre Hsuf.
  - now split.
  - rewrite llen_cons in Hn. pose proof (llen_nonneg rest) as Hr.
    cbn [scan]. apply IH; try lia.
    + intros g. destruct (String.eqb c "**"); cbn [globstar].
      * intros [= <-]. lia.
      * destruct (truthy (globstar p)); cbn [globstar];
          [|destruct (negb (_is_graphite_glob c)); cbn [globstar]];
          intros E; specialize (Hg g E); lia.
    + destruct (String.eqb c "**"); [exact Hpre|].
      destruct (truthy (globstar p)); [exact Hpre|].
      destruct (negb (_is_graphite_glob c)); [|exact Hpre].
      apply in_bounds_snoc; [exact Hpre | lia].
    + destruct (String.eqb c "**"); [exact Hsuf|].
      destruct (truthy (globstar p)) eqn:Et.
      * apply in_bounds_snoc; [exact Hsuf|].
        destruct (globstar p) as [g|]; [|discriminate].
        specialize (Hg g eq_refl). lia.
      * destruct (negb (_is_graphite_glob c)); exact Hsuf.
Qed.

Lemma getitem_in_range {A} (l : list A) i :
  0 <= i < llen l -> exists a, getitem l i = Ok a.
Proof.
  intros Hi. unfold getitem.
  destruct (i <? 0) eqn:E0; [apply Z.ltb_lt in E0; lia|]. rewrite E0.
  destruct (llen l <=? i) eqn:E1; [apply Z.leb_le in E1; lia|]. cbn [orb].
  destruct (nth_error l (Z.to_nat i)) as [a|] eqn:E; [now exists a|].
  apply nth_error_None in E. unfold llen in Hi. lia.
Qed.

Lemma check_literals_total metric_components literals n :
  in_bounds n literals -> n <= llen metric_components ->
  exists b, check_literals metric_components literals = Ok b.
Proof.
  intros Hb Hn. induction Hb as [|[i v] literals Hi _ IH].
  - now exists true.
  - cbn [check_literals]. cbn [fst] in Hi.
    destruct (getitem_in_range metric_components i ltac:(lia)) as [a ->].
    cbn [bind]. destruct (negb (String.eqb a v)); [now exists false | exact IH].
Qed.

Lemma maybe_matched_total glob_components metric :
  exists b,
    maybe_matched_prefilter glob_components (make_plan glob_components) metric
    = Ok b.
Proof.
  unfold maybe_matched_prefilter.
  destruct (scan_bounds glob_components (llen glob_components) 0
              (mkPlan None [] [])) as [Hpre Hsuf];
    try lia; try discriminate; try constructor.
  fold (make_plan glob_components) in Hpre, Hsuf.
  destruct (truthy (globstar (make_plan glob_components))); cbn [andb negb].
  - destruct (llen (split metric) <? llen glob_components) eqn:E;
      [now exists false|]. apply Z.ltb_ge in E.
    apply (check_literals_total _ _ (llen glob_components)); [|exact E].
    apply Forall_app. now split.
  - destruct (llen (split metric) =? llen glob_components) eqn:E;
      [|now exists false]. apply Z.eqb_eq in E. cbn [negb].
    apply (check_literals_total _ _ (llen glob_components)); [|lia].
    apply Forall_app. now split.
Qed.

Lemma glob_total metric_names glob_pattern :
  exists kept, glob metric_names glob_pattern = Ok kept.
Proof.
  unfold glob. induction metric_names as [|m rest [kept IH]].
  - now exists [].
  - cbn [filter_r].
    destruct (maybe_matched_total (split glob_pattern) m) as [b ->].
    cbn [bind]. rewrite IH. cbn [bind]. eauto.
Qed.

Lemma glob_filter metric_names glob_pattern :
  glob metric_names glob_pattern
  = Ok (filter (prefilter_keeps glob_pattern) metric_names).
Proof.
  unfold glob, prefilter_keeps.
  induction metric_names as [|m rest IH]; [reflexivity|].
  cbn [Prefilter.filter_r filter].
  destruct (maybe_matched_total (split glob_pattern) m) as [b Hb].
  rewrite Hb. cbn [bind]. rewrite IH. cbn [bind]. reflexivity.
Qed.

End PrefilterTotal.

(** C1, at a failing input.  For the pattern [a.**.b] the compiled regular
    expression matches the name [a.x.b], and the prefilter drops that
    name. *)
Theorem C1_prefilter_drops_matched_name :
  glob_to_regex "a.**.b" = Ok "^a\..*\.b$"
  /\ filter_metrics ["a.x.b"] "a.**.b" = Some ["a.x.b"]
  /\ glob ["a.x.b"] "a.**.b" = Ok [].
Proof. repeat split. Qed.

(** C2, at failing inputs.  After a globstar the prefilter records the
    component [*], which is not a plain literal; and for the pattern
    [a.**.b] it records the literal [b] at distance 1 from the end, then
    drops the name [a.x.b], whose component at distance 1 from the end is
    [b], because it compares with the component at index 1 from the
    start. *)
Theorem C2_suffix_constraints_at_failing_inputs :
  Prefilter.suffix_literals (Prefilter.make_plan (split "a.**.*"))
  = [(1, "*")]
  /\ _is_graphite_glob "*" = true
  /\ Prefilter.suffix_literals (Prefilter.make_plan (split "a.**.b"))
     = [(1, "b")]
  /\ getitem (split "a.x.b") (-1) = Ok "b"
  /\ getitem (split "a.x.b") 1 = Ok "x"
  /\ Prefilter.maybe_matched_prefilter (split "a.**.b")
       (Prefilter.make_plan (split "a.**.b")) "a.x.b" = Ok false.
Proof. repeat split. Qed.

(** * Further properties *)

(** ** The prefilter as a filter *)

(** X1.  [glob] never raises, whatever the names and the pattern, and its
    result is the input list filtered by a decision taken on each name
    alone: the kept names come in input order, repeated names stay
    repeated. *)
Theorem X1_glob_is_filter (metric_names : list string) (glob_pattern : string) :
  glob metric_names glob_pattern
  = Ok (filter (prefilter_keeps glob_pattern) metric_names).
Proof. apply PrefilterTotal.glob_filter. Qed.

(** ** Validity and components *)

Module ComponentFacts.
Import Validator.

Lemma split_nonempty s : split s <> [].
Proof.
  destruct s as [|c s]; simpl; [discriminate|].
  destruct (Ascii.eqb c "."); [discriminate|].
  destruct (split s); discriminate.
Qed.

Lemma valid_loop_split glob : forall depth,
  0 <= depth ->
  valid_loop depth glob
  = match split glob with
    | h :: t => valid_loop depth h && forallb (valid_loop 0) t
    | [] => false
    end.
Proof.
  induction glob as [|c glob IH]; intros depth Hd.
  - simpl. now rewrite andb_true_r.
  - cbn [split valid_loop].
    destruct (Ascii.eqb c ".") eqn:Ep.
    + apply Ascii.eqb_eq in Ep. subst c. cbn [Ascii.eqb Bool.eqb].
      cbn [valid_loop forallb].
      destruct (depth >? 0) eqn:Eg.
      * rewrite Z.gtb_ltb in Eg. apply Z.ltb_lt in Eg.
        destruct (depth =? 0) eqn:E0; [apply Z.eqb_eq in E0; lia | reflexivity].
      * rewrite Z.gtb_ltb in Eg. apply Z.ltb_ge in Eg.
        assert (depth = 0) by lia. subst depth.
        rewrite (IH 0) by lia. pose proof (split_nonempty glob) as Hne.
        destruct (split glob); [contradiction | reflexivity].
    + pose proof (split_nonempty glob) as Hne.
      destruct (split glob) as [|h t] eqn:Es; [contradiction|].
      cbn [valid_loop]. rewrite Ep.
      destruct (Ascii.eqb c "{"); [now apply IH; lia|].
      destruct (Ascii.eqb c "}").
      * destruct (depth - 1 <? 0) eqn:El; [reflexivity|].
        apply Z.ltb_ge in El. now apply IH.
      * now apply IH.
Qed.

End ComponentFacts.

(** X2.  A pattern is valid exactly when each of its dot-separated
    components is valid on its own: brace groups never span components. *)
Theorem X2_valid_iff_components_valid (glob : string) :
  Validator._is_valid_glob glob
  = forallb Validator._is_valid_glob (split glob).
Proof.
  unfold Validator._is_valid_glob.
  rewrite ComponentFacts.valid_loop_split by lia.
  pose proof (ComponentFacts.split_nonempty glob).
  destruct (split glob); [contradiction | reflexivity].
Qed.

(** ** [deduplicate] *)

Module DeduplicateFacts.
Import Finder.

Section Facts.

Context {A : Type} (eq_dec : forall x y : A, {x = y} + {x <> y}).

Lemma loop_in yielded entries x :
  In x (deduplicate_loop eq_dec yielded entries)
  <-> In x entries /\ ~ In x yielded.
Proof.
  revert yielded. induction entries as [|e rest IH]; intros yielded.
  - simpl. tauto.
  - cbn [deduplicate_loop]. destruct (in_dec eq_dec e yielded) as [Hy|Hy].
    + rewrite IH. simpl. split.
      * intros [H1 H2]. auto.
      * intros [[-> | H1] H2]; [contradiction | auto].
    + simpl. rewrite IH. simpl. split.
      * intros [-> | [H1 H2]]; auto.
      * intros [[-> | H1] H2]; [now left|].
        destruct (eq_dec e x) as [-> | Hne]; [now left|].
        right. split; [exact H1|]. intros [E | H3]; [contradiction | auto].
Qed.

Lemma loop_nodup yielded entries :
  NoDup (deduplicate_loop eq_dec yielded entries).
Proof.
  revert yielded. induction entries as [|e rest IH]; intros yielded.
  - constructor.
  - cbn [deduplicate_loop]. destruct (in_dec eq_dec e yielded); [apply IH|].
    constructor; [|apply IH]. rewrite loop_in. simpl. tauto.
Qed.

(** Only membership in [yielded] matters. *)
Lemma loop_ext entries : forall y1 y2,
  (forall x, In x y1 <-> In x y2) ->
  deduplicate_loop eq_dec y1 entries = deduplicate_loop eq_dec y2 entries.
Proof.
  induction entries as [|e rest IH]; intros y1 y2 H; [reflexivity|].
  cbn [deduplicate_loop].
  destruct (in_dec eq_dec e y1) as [H1|H1],
           (in_dec eq_dec e y2) as [H2|H2].
  - now apply IH.
  - elim H2. now apply H.
  - elim H1. now apply H.
  - f_equal. apply IH. intros x. simpl. rewrite H. tauto.
Qed.

Lemma loop_add x entries : forall yielded,
  deduplicate_loop eq_dec (x :: yielded) entries
  = filter (differs eq_dec x) (deduplicate_loop eq_dec yielded entries).
Proof.
  induction entries as [|e rest IH]; intros yielded; [reflexivity|].
  cbn [deduplicate_loop].
  destruct (in_dec eq_dec e (x :: yielded)) as [H1|H1],
           (in_dec eq_dec e yielded) as [H2|H2].
  - apply IH.
  - destruct H1 as [-> | H1]; [|contradiction].
    cbn [filter]. unfold differs at 1.
    destruct (eq_dec e e) as [_|n]; [|now elim n].
    rewrite <- IH. apply loop_ext. intros z. simpl. tauto.
  - elim H1. now right.
  - cbn [filter]. unfold differs at 1.
    destruct (eq_dec e x) as [-> | Hne]; [elim H1; now left|].
    f_equal. rewrite <- IH. apply loop_ext. intros z. simpl. tauto.
Qed.

Lemma loop_id entries : forall yielded,
  NoDup entries -> (forall x, In x entries -> ~ In x yielded) ->
  deduplicate_loop eq_dec yielded entries = entries.
Proof.
  induction entries as [|e rest IH]; intros yielded Hnd Hdis; [reflexivity|].
  cbn [deduplicate_loop]. inversion Hnd as [|? ? Hnotin Hnd']; subst.
  destruct (in_dec eq_dec e yielded) as [H|H].
  - elim (Hdis e); [now left | exact H].
  - f_equal. apply IH; [exact Hnd'|].
    intros x Hx [-> | Hy]; [contradiction|].
    apply (Hdis x); [now right | exact Hy].
Qed.

End Facts.

End DeduplicateFacts.

(** X3.  [deduplicate] yields every entry of its input exactly once, each
    at the place of its first occurrence: the result has no repetition,
    has the same members as the input, starts with the first entry followed
    by the deduplicated rest without that entry, and is the input itself
    when the input has no repetition. *)
Theorem X3_deduplicate_first_occurrences
    {A : Type} (eq_dec : forall x y : A, {x = y} + {x <> y}) :
  (forall entries, NoDup (Finder.deduplicate eq_dec entries))
  /\ (forall entries x,
        In x (Finder.deduplicate eq_dec entries) <-> In x entries)
  /\ (forall x entries,
        Finder.deduplicate eq_dec (x :: entries)
        = x :: filter (differs eq_dec x)
                 (Finder.deduplicate eq_dec entries))
  /\ (forall entries,
        NoDup entries -> Finder.deduplicate eq_dec entries = entries)
  /\ (forall entries,
        Finder.deduplicate eq_dec (Finder.deduplicate eq_dec entries)
        = Finder.deduplicate eq_dec entries).
Proof.
  unfold Finder.deduplicate. repeat split.
  - intros entries. apply DeduplicateFacts.loop_nodup.
  - intros H. apply DeduplicateFacts.loop_in in H. tauto.
  - intros H. apply DeduplicateFacts.loop_in. auto.
  - intros x entries. cbn [Finder.deduplicate_loop].
    destruct (in_dec eq_dec x []) as [[]|_].
    f_equal. apply DeduplicateFacts.loop_add.
  - intros entries Hnd. apply DeduplicateFacts.loop_id; auto.
  - intros entries. apply DeduplicateFacts.loop_id; [|auto].
    apply DeduplicateFacts.loop_nodup.
Qed.

(** ** What the tokens cover *)

Module CoverFacts.

Lemma tokens_source_app l1 l2 :
  tokens_source (l1 ++ l2) = tokens_source l1 ++ tokens_source l2.
Proof.
  induction l1 as [|t l1 IH]; simpl; [reflexivity|].
  now rewrite IH, append_assoc.
Qed.

Lemma flushed_source token tmp :
  pending_clean token tmp -> tokens_source (flushed token tmp) = tmp.
Proof.
  intros [[-> ->] | ->]; cbn; [reflexivity | apply append_nil_r].
Qed.

Lemma emit_source token tmp (t : TokenType) r whole rest :
  pending_clean token tmp ->
  (exists l, r = Ok l /\ tokens_source l = rest) ->
  whole = tmp ++ token_source (Some t, Some EmptyString) ++ rest ->
  exists l,
    yield (flushed token tmp ++ [(Some t, Some EmptyString)])%list r = Ok l
    /\ tokens_source l = whole.
Proof.
  intros Hp (l & -> & Hl) ->. eexists. split; [reflexivity|].
  rewrite !tokens_source_app, (flushed_source _ _ Hp).
  cbn [tokens_source]. rewrite Hl, append_nil_r.
  now rewrite append_assoc.
Qed.

Lemma loop_source (n : nat) : forall glob ics tmp token,
  (String.length glob <= n)%nat ->
  char_in "\" glob = false ->
  pending_clean token tmp ->
  exists l, tokenize_loop false ics tmp token glob = Ok l
            /\ tokens_source l = tmp ++ glob.
Proof.
  induction n as [|n IH]; intros [|c rest] ics tmp token Hlen Hbs Hp;
    simpl in Hlen; try lia.
  - exists (flushed token tmp). split; [reflexivity|].
    now rewrite flushed_source, append_nil_r.
  - exists (flushed token tmp). split; [reflexivity|].
    now rewrite flushed_source, append_nil_r.
  - assert (Hrest : (String.length rest <= n)%nat) by lia.
    assert (Hbs0 := Hbs).
    cbn [char_in] in Hbs. apply orb_false_iff in Hbs as [Hc Hbs].
    rewrite Ascii.eqb_sym in Hc.
    assert (Hnone : pending_clean None EmptyString) by (left; now split).
    assert (Ek : kept token tmp = EmptyString).
    { destruct Hp as [[-> ->] | ->]; reflexivity. }
    cbn [tokenize_loop]. rewrite Hc.
    destruct (negb (char_in c SPECIAL_CHARS)
              || Ascii.eqb c "-" && negb ics) eqn:Hlitc.
    { assert (Hl : pending_clean (Some LITERAL) (snoc tmp c)) by now right.
      destruct (IH rest ics (snoc tmp c) (Some LITERAL) Hrest Hbs Hl)
        as (l & El & Hs).
      exists l. rewrite snoc_append in Hs. split; [|exact Hs].
      destruct Hp as [[-> ->] | ->]; exact El. }
    apply orb_false_iff in Hlitc as [Hspec Hdash].
    apply negb_false_iff in Hspec.
    fold (flushed token tmp). fold (kept token tmp). rewrite Ek.
    destruct (TokenizerFacts.special_cases c Hspec)
      as [->|[->|[->|[->|[->|[->|[->|[->| ->]]]]]]]];
      cbn [Ascii.eqb Bool.eqb];
      try (eapply emit_source;
           [exact Hp | apply IH; [exact Hrest | exact Hbs | exact Hnone]
           | reflexivity]).
    + destruct rest as [|d rest'].
      * eapply emit_source;
          [exact Hp | apply IH; [exact Hrest | exact Hbs | exact Hnone]
          | reflexivity].
      * simpl in Hrest. assert (Hbs1 := Hbs). cbn [char_in] in Hbs1.
        apply orb_false_iff in Hbs1 as [_ Hbs'].
        destruct (Ascii.eqb d "*") eqn:Ed.
        -- apply Ascii.eqb_eq in Ed. subst d.
           eapply emit_source;
             [exact Hp | apply IH; [lia | exact Hbs' | exact Hnone]
             | reflexivity].
        -- eapply emit_source;
             [exact Hp | apply IH; [simpl; lia | exact Hbs | exact Hnone]
             | reflexivity].
    + destruct rest as [|d rest'].
      * eapply emit_source;
          [exact Hp | apply IH; [exact Hrest | exact Hbs | exact Hnone]
          | reflexivity].
      * simpl in Hrest. assert (Hbs1 := Hbs). cbn [char_in] in Hbs1.
        apply orb_false_iff in Hbs1 as [_ Hbs'].
        destruct (Ascii.eqb d "!") eqn:Ed.
        -- apply Ascii.eqb_eq in Ed. subst d.
           eapply emit_source;
             [exact Hp | apply IH; [lia | exact Hbs' | exact Hnone]
             | reflexivity].
        -- eapply emit_source;
             [exact Hp | apply IH; [simpl; lia | exact Hbs | exact Hnone]
             | reflexivity].
Qed.

End CoverFacts.

(** X4.  For a pattern without backslash the tokens cover the pattern
    exactly: putting the text of every yielded token side by side gives
    the pattern back. *)
Theorem X4_tokens_cover_unescaped_pattern (glob : string) :
  char_in "\" glob = false ->
  exists tokens, tokenize glob = Ok tokens /\ tokens_source tokens = glob.
Proof.
  intros H.
  apply (CoverFacts.loop_source (String.length glob) glob false EmptyString
           None (Nat.le_refl _) H).
  left. now split.
Qed.

Lemma X4_tokens_cover_unescaped_pattern_witness :
  exists tokens,
    tokenize "a.b[!x-z]**.{c,d*}?" = Ok tokens
    /\ tokens_source tokens = "a.b[!x-z]**.{c,d*}?".
Proof.
  apply (X4_tokens_cover_unescaped_pattern "a.b[!x-z]**.{c,d*}?").
  reflexivity.
Defined.

(** ** Shape of the token stream *)

Module ShapeFacts.

Lemma snoc_not_empty tmp c : snoc tmp c <> EmptyString.
Proof. destruct tmp; discriminate. Qed.

Lemma not_empty_eqb s : s <> EmptyString -> String.eqb s EmptyString = false.
Proof. intros H. now apply String.eqb_neq. Qed.

Lemma emit_shape token tmp (t : TokenType) r :
  pending_text token tmp ->
  t <> LITERAL ->
  (exists l, r = Ok l /\ shape_ok l) ->
  exists l,
    yield (flushed token tmp ++ [(Some t, Some EmptyString)])%list r = Ok l
    /\ shape_ok l.
Proof.
  intros Hp Ht (l & -> & Hd & Ha). eexists. split; [reflexivity|].
  assert (Hs : shape_ok ((Some t, Some EmptyString) :: l)).
  { split.
    - cbn [forallb]. rewrite Hd. destruct t; try reflexivity. now elim Ht.
    - destruct l as [|u l']; [reflexivity|].
      cbn [no_adjacent_literals] in *. rewrite Ha.
      destruct t; try reflexivity. now elim Ht. }
  destruct Hp as [-> | [-> Hne]]; [exact Hs|].
  destruct Hs as [Hd' Ha']. split.
  - cbn [flushed truthy_token app forallb data_ok] in *.
    now rewrite Hd', (not_empty_eqb _ Hne).
  - cbn [flushed truthy_token app] in *.
    change (no_adjacent_literals
              ((Some LITERAL, Some tmp) :: (Some t, Some EmptyString) :: l))
      with (negb (is_literal (Some LITERAL, Some tmp)
                  && is_literal (Some t, Some EmptyString))
            && no_adjacent_literals ((Some t, Some EmptyString) :: l)).
    rewrite Ha'. destruct t; try reflexivity. now elim Ht.
Qed.

Lemma flushed_shape token tmp :
  pending_text token tmp -> shape_ok (flushed token tmp).
Proof.
  intros [-> | [-> Hne]]; split; try reflexivity.
  cbn. now rewrite (not_empty_eqb _ Hne).
Qed.

Lemma loop_shape (n : nat) : forall glob esc ics tmp token,
  (String.length glob <= n)%nat ->
  pending_text token tmp ->
  exists l, tokenize_loop esc ics tmp token glob = Ok l /\ shape_ok l.
Proof.
  induction n as [|n IH]; intros [|c rest] esc ics tmp token Hlen Hp;
    simpl in Hlen; try lia.
  - exists (flushed token tmp). split; [reflexivity | now apply flushed_shape].
  - exists (flushed token tmp). split; [reflexivity | now apply flushed_shape].
  - assert (Hrest : (String.length rest <= n)%nat) by lia.
    assert (Hnone : forall s, pending_text None s) by (intros s; now left).
    assert (Hlit : pending_text (Some LITERAL) (snoc tmp c)).
    { right. split; [reflexivity | apply snoc_not_empty]. }
    cbn [tokenize_loop].
    destruct esc.
    { apply IH; [exact Hrest|].
      destruct Hp as [-> | [-> _]]; [apply Hnone | exact Hlit]. }
    destruct (Ascii.eqb c "\"); [now apply IH|].
    destruct (negb (char_in c SPECIAL_CHARS)
              || Ascii.eqb c "-" && negb ics) eqn:Hlitc.
    { destruct Hp as [-> | [-> _]]; now apply IH. }
    apply orb_false_iff in Hlitc as [Hspec Hdash].
    apply negb_false_iff in Hspec.
    fold (flushed token tmp). fold (kept token tmp).
    destruct (TokenizerFacts.special_cases c Hspec)
      as [->|[->|[->|[->|[->|[->|[->|[->| ->]]]]]]]];
      cbn [Ascii.eqb Bool.eqb];
      try (apply emit_shape; [exact Hp | discriminate | now apply IH]).
    + destruct rest as [|d rest'].
      * apply emit_shape; [exact Hp | discriminate | now apply IH].
      * simpl in Hrest.
        destruct (Ascii.eqb d "*");
          (apply emit_shape;
           [exact Hp | discriminate | apply IH; simpl; auto; lia]).
    + destruct rest as [|d rest'].
      * apply emit_shape; [exact Hp | discriminate | now apply IH].
      * simpl in Hrest.
        destruct (Ascii.eqb d "!");
          (apply emit_shape;
           [exact Hp | discriminate | apply IH; simpl; auto; lia]).
Qed.

End ShapeFacts.

(** X5.  Whatever the pattern, a [LITERAL] token never carries the empty
    string, every other token carries the empty string, and two [LITERAL]
    tokens never follow one another: a literal run is always yielded as one
    token. *)
Theorem X5_token_stream_shape (glob : string) :
  exists tokens,
    tokenize glob = Ok tokens
    /\ forallb data_ok tokens = true
    /\ no_adjacent_literals tokens = true.
Proof.
  apply (ShapeFacts.loop_shape (String.length glob)); [lia | now left].
Qed.

(** ** The prefilter on patterns without a globstar past the first
    component *)

Module LiteralFacts.
Import Prefilter.

Lemma join_split s : Finder.join (split s) = s.
Proof.
  induction s as [|c s IH]; [reflexivity|].
  cbn [split]. pose proof (ComponentFacts.split_nonempty s) as Hne.
  destruct (Ascii.eqb c ".") eqn:E.
  - apply Ascii.eqb_eq in E. subst c.
    destruct (split s) as [|h t]; [contradiction|].
    cbn [Finder.join] in *. now rewrite IH.
  - destruct (split s) as [|h t]; [contradiction|].
    destruct t as [|u t]; cbn [Finder.join] in *; now rewrite <- IH.
Qed.

Lemma split_injective a b : split a = split b -> a = b.
Proof.
  intros H. rewrite <- (join_split a), <- (join_split b). now rewrite H.
Qed.

Lemma globstar_is_glob : _is_graphite_glob "**" = true.
Proof. reflexivity. Qed.

(** Without a globstar in sight, the scan only records plain literals, by
    their index. *)
Lemma scan_plain components : forall n index p,
  truthy (globstar p) = false ->
  ~ In "**" components ->
  scan n index components p
  = mkPlan (globstar p)
      (prefix_literals p ++ literal_positions index components)
      (suffix_literals p).
Proof.
  induction components as [|c rest IH]; intros n index p Ht Hno.
  - cbn. rewrite app_nil_r. now destruct p.
  - cbn [scan literal_positions].
    destruct (String.eqb c "**") eqn:Ec.
    { apply String.eqb_eq in Ec. subst c. elim Hno. now left. }
    rewrite Ht.
    assert (Hno' : ~ In "**" rest) by (intros H; apply Hno; now right).
    destruct (_is_graphite_glob c); cbn [negb].
    + now apply IH.
    + rewrite IH by (cbn; auto). cbn [globstar prefix_literals suffix_literals].
      now rewrite <- app_assoc.
Qed.

Lemma make_plan_plain components :
  ~ In "**" (tl components) ->
  truthy (globstar (make_plan components)) = false
  /\ prefix_literals (make_plan components) = literal_positions 0 components
  /\ suffix_literals (make_plan components) = [].
Proof.
  unfold make_plan. destruct components as [|c rest]; [now cbn|].
  cbn [tl]. intros Hno. cbn [scan literal_positions].
  destruct (String.eqb c "**") eqn:Ec.
  - apply String.eqb_eq in Ec. subst c. rewrite globstar_is_glob.
    rewrite scan_plain by (cbn; auto). cbn. auto.
  - cbn [truthy globstar]. destruct (_is_graphite_glob c); cbn [negb];
      rewrite scan_plain by (cbn; auto); cbn; auto.
Qed.

Lemma getitem_nth {A} (l : list A) (k : nat) :
  getitem l (Z.of_nat k)
  = match nth_error l k with Some a => Ok a | None => Raise IndexError end.
Proof.
  unfold getitem.
  destruct (Z.of_nat k <? 0) eqn:E0; [apply Z.ltb_lt in E0; lia|].
  rewrite E0, Nat2Z.id. cbn [orb].
  destruct (llen l <=? Z.of_nat k) eqn:E1; [|reflexivity].
  apply Z.leb_le in E1. unfold llen in E1.
  destruct (nth_error l k) eqn:E; [|reflexivity].
  assert (nth_error l k <> None) by congruence.
  apply nth_error_Some in H. lia.
Qed.

(** The literal check passes exactly when the name agrees with the pattern
    on every plain-literal component. *)
Lemma check_positions components : forall (k : nat) metric_components,
  (k + List.length components <= List.length metric_components)%nat ->
  check_literals metric_components
    (literal_positions (Z.of_nat k) components) = Ok true
  <-> forall i c, nth_error components i = Some c ->
                  _is_graphite_glob c = false ->
                  nth_error metric_components (k + i) = Some c.
Proof.
  induction components as [|c rest IH]; intros k mc Hlen.
  - cbn. split; [|reflexivity]. intros _ [|i] c H; discriminate.
  - cbn [List.length] in Hlen. cbn [literal_positions].
    replace (Z.of_nat k + 1) with (Z.of_nat (S k)) by lia.
    specialize (IH (S k) mc ltac:(lia)).
    assert (Hshift : (forall i c0, nth_error rest i = Some c0 ->
                        _is_graphite_glob c0 = false ->
                        nth_error mc (S k + i) = Some c0)
                     <-> (forall i c0, nth_error (c :: rest) (S i) = Some c0 ->
                        _is_graphite_glob c0 = false ->
                        nth_error mc (k + S i) = Some c0)).
    { split; intros H i c0 H1 H2; specialize (H i c0 H1 H2);
        now replace (k + S i)%nat with (S k + i)%nat in * by lia. }
    destruct (_is_graphite_glob c) eqn:Eg.
    + rewrite IH, Hshift. split.
      * intros H [|i] c0 H1 H2; [|now apply H].
        cbn in H1. injection H1 as ->. congruence.
      * intros H i c0. apply H.
    + cbn [check_literals]. rewrite getitem_nth.
      destruct (nth_error mc k) as [a|] eqn:En.
      * cbn [bind]. destruct (String.eqb a c) eqn:Ea; cbn [negb].
        -- apply String.eqb_eq in Ea. subst a. rewrite IH, Hshift. split.
           ++ intros H [|i] c0 H1 H2; [|now apply H].
              cbn in H1. injection H1 as ->. now rewrite Nat.add_0_r.
           ++ intros H i c0. apply H.
        -- apply String.eqb_neq in Ea. split; [discriminate|].
           intros H. specialize (H 0%nat c eq_refl Eg).
           rewrite Nat.add_0_r in H. congruence.
      * cbn [bind]. split; [discriminate|].
        intros H. specialize (H 0%nat c eq_refl Eg).
        rewrite Nat.add_0_r in H. congruence.
Qed.

Lemma keeps_plain glob_pattern metric :
  ~ In "**" (tl (split glob_pattern)) ->
  prefilter_keeps glob_pattern metric = true
  <-> List.length (split metric) = List.length (split glob_pattern)
      /\ forall i c, nth_error (split glob_pattern) i = Some c ->
                     _is_graphite_glob c = false ->
                     nth_error (split metric) i = Some c.
Proof.
  intros Hno. unfold prefilter_keeps, maybe_matched_prefilter.
  destruct (make_plan_plain _ Hno) as (Ht & Hpre & Hsuf).
  rewrite Ht, Hpre, Hsuf. cbn [andb negb app].
  destruct (llen (split metric) =? llen (split glob_pattern)) eqn:El.
  - apply Z.eqb_eq in El. unfold llen in El. apply Nat2Z.inj in El.
    cbn [negb].
    pose proof (check_positions (split glob_pattern) 0 (split metric)
                  ltac:(lia)) as Hc.
    cbn [Z.of_nat Nat.add] in Hc.
    destruct (check_literals (split metric)
                (literal_positions 0 (split glob_pattern))) as [[|]|e].
    + split; [|reflexivity]. intros _. split; [exact El|].
      now apply Hc.
    + split; [discriminate|]. intros [_ H]. apply Hc in H. discriminate H.
    + split; [discriminate|]. intros [_ H]. apply Hc in H. discriminate H.
  - apply Z.eqb_neq in El. cbn [negb]. split; [discriminate|].
    intros [H _]. elim El. unfold llen. now rewrite H.
Qed.

End LiteralFacts.

(** X6.  For a pattern with no globstar component after its first
    component, the prefilter keeps a name exactly when the name has as many
    components as the pattern and carries, at the index of every component
    of the pattern that is a plain literal, that same literal. *)
Theorem X6_prefilter_without_globstar (glob_pattern metric : string) :
  ~ In "**" (tl (split glob_pattern)) ->
  prefilter_keeps glob_pattern metric = true
  <-> List.length (split metric) = List.length (split glob_pattern)
      /\ forall i c, nth_error (split glob_pattern) i = Some c ->
                     _is_graphite_glob c = false ->
                     nth_error (split metric) i = Some c.
Proof. apply LiteralFacts.keeps_plain. Qed.

Lemma X6_prefilter_without_globstar_witness :
  prefilter_keeps "a.*.c" "a.b.c" = true
  <-> List.length (split "a.b.c") = List.length (split "a.*.c")
      /\ forall i c, nth_error (split "a.*.c") i = Some c ->
                     _is_graphite_glob c = false ->
                     nth_error (split "a.b.c") i = Some c.
Proof.
  apply (X6_prefilter_without_globstar "a.*.c" "a.b.c").
  simpl. intros [H | [H | H]]; [discriminate | discriminate | exact H].
Defined.

(** X7.  For a pattern whose components are all plain literals, the
    prefilter keeps one name only, the pattern itself. *)
Theorem X7_prefilter_literal_pattern (glob_pattern metric : string) :
  forallb (fun c => negb (_is_graphite_glob c)) (split glob_pattern) = true ->
  prefilter_keeps glob_pattern metric = String.eqb metric glob_pattern.
Proof.
  intros Hall. rewrite forallb_forall in Hall.
  assert (Hno : ~ In "**" (tl (split glob_pattern))).
  { intros Hin. assert (H : In "**" (split glob_pattern)).
    { destruct (split glob_pattern); [contradiction | now right]. }
    specialize (Hall _ H). discriminate. }
  destruct (String.eqb metric glob_pattern) eqn:E.
  - apply String.eqb_eq in E. subst metric.
    apply (LiteralFacts.keeps_plain _ _ Hno). split; auto.
  - apply String.eqb_neq in E.
    destruct (prefilter_keeps glob_pattern metric) eqn:Ek; [|reflexivity].
    apply (LiteralFacts.keeps_plain _ _ Hno) in Ek as [Hlen Hnth].
    elim E. apply LiteralFacts.split_injective.
    apply nth_error_ext. intros i.
    destruct (nth_error (split glob_pattern) i) as [c|] eqn:Ei.
    + apply Hnth; [exact Ei|]. apply nth_error_In in Ei.
      specialize (Hall _ Ei). now apply negb_true_iff.
    + apply nth_error_None in Ei. apply nth_error_None. lia.
Qed.

Lemma X7_prefilter_literal_pattern_witness :
  prefilter_keeps "a.b" "a.b.c" = String.eqb "a.b.c" "a.b".
Proof.
  apply (X7_prefilter_literal_pattern "a.b" "a.b.c"). reflexivity.
Defined.

(** ** Directories and nodes *)

Module FinderFacts.
Import Finder.

Lemma split_app_dot a b : split (a ++ String "." b) = (split a ++ split b)%list.
Proof.
  induction a as [|c a IH]; [reflexivity|].
  cbn [append split]. rewrite IH.
  destruct (Ascii.eqb c "."); [reflexivity|].
  pose proof (ComponentFacts.split_nonempty a).
  destruct (split a); [contradiction | reflexivity].
Qed.

Lemma join_app l1 l2 :
  l1 <> [] -> l2 <> [] ->
  join (l1 ++ l2)%list = join l1 ++ String "." (join l2).
Proof.
  intros H1 H2. induction l1 as [|x l1 IH]; [contradiction|].
  destruct l1 as [|y l1].
  - cbn [app join]. destruct l2; [contradiction | reflexivity].
  - change (join ((x :: y :: l1) ++ l2)%list)
      with (x ++ String "." (join ((y :: l1) ++ l2)%list)).
    rewrite IH by discriminate.
    change (join (x :: y :: l1)) with (x ++ String "." (join (y :: l1))).
    rewrite append_assoc. reflexivity.
Qed.

(** The directories inferred from a metric are its proper dotted
    prefixes. *)
Lemma directories_of_spec metric d :
  In d (directories_of metric)
  <-> exists rest, metric = d ++ String "." rest.
Proof.
  unfold directories_of. rewrite in_map_iff. split.
  - intros (i & <- & Hi). apply in_seq in Hi.
    exists (join (skipn i (split metric))).
    rewrite <- join_app.
    + now rewrite firstn_skipn, LiteralFacts.join_split.
    + intros E. apply (f_equal (@List.length _)) in E.
      rewrite length_firstn in E. cbn in E. lia.
    + intros E. apply (f_equal (@List.length _)) in E.
      rewrite length_skipn in E. cbn in E. lia.
  - intros (rest & ->). rewrite split_app_dot.
    pose proof (ComponentFacts.split_nonempty d) as Hd.
    pose proof (ComponentFacts.split_nonempty rest) as Hr.
    exists (List.length (split d)). split.
    + rewrite firstn_app, Nat.sub_diag, firstn_all. cbn [firstn].
      rewrite app_nil_r. apply LiteralFacts.join_split.
    + apply in_seq. rewrite length_app.
      destruct (split d); [contradiction|].
      destruct (split rest); [contradiction|]. cbn [List.length]. lia.
Qed.

Lemma metrics_to_nodes_spec iterate metrics pattern :
  set_order iterate ->
  exists branches,
    metrics_to_nodes iterate metrics pattern
    = Ok (map BranchNode branches
          ++ map LeafNode (filter (prefilter_keeps pattern) metrics))%list
    /\ NoDup branches
    /\ forall d,
         In d branches
         <-> prefilter_keeps pattern d = true
             /\ exists metric rest,
                  In metric metrics /\ metric = d ++ String "." rest.
Proof.
  intros Hset. unfold metrics_to_nodes.
  rewrite !PrefilterTotal.glob_filter. cbn [bind].
  eexists. split; [reflexivity|].
  destruct (Hset (flat_map directories_of metrics)) as [Hnd Hin].
  split; [now apply NoDup_filter|].
  intros d. rewrite filter_In, Hin, in_flat_map. split.
  - intros [(metric & Hm & Hd) Hk]. split; [exact Hk|].
    apply directories_of_spec in Hd as [rest ->]. eauto.
  - intros [Hk (metric & rest & Hm & ->)]. split; [|exact Hk].
    exists (d ++ String "." rest). split; [exact Hm|].
    apply directories_of_spec. eauto.
Qed.

End FinderFacts.

(** X8.  Whatever order the set of directories is iterated in,
    [metrics_to_nodes] never raises and yields branch nodes first, then
    leaf nodes: the leaves are the metrics that the prefilter keeps, in
    input order; the branches are, each once, the proper dotted prefixes of
    the metrics that the prefilter keeps. *)
Theorem X8_metrics_to_nodes
    (iterate : list string -> list string)
    (metrics : list string) (pattern : string) :
  set_order iterate ->
  exists branches,
    Finder.metrics_to_nodes iterate metrics pattern
    = Ok (map Finder.BranchNode branches
          ++ map Finder.LeafNode
               (filter (prefilter_keeps pattern) metrics))%list
    /\ NoDup branches
    /\ forall d,
         In d branches
         <-> prefilter_keeps pattern d = true
             /\ exists metric rest,
                  In metric metrics /\ metric = d ++ String "." rest.
Proof. apply FinderFacts.metrics_to_nodes_spec. Qed.

Lemma X8_metrics_to_nodes_witness :
  exists branches,
    Finder.metrics_to_nodes (nodup string_dec) ["a.b.c"; "a.b.d"; "x"] "a.*"
    = Ok (map Finder.BranchNode branches
          ++ map Finder.LeafNode
               (filter (prefilter_keeps "a.*") ["a.b.c"; "a.b.d"; "x"]))%list
    /\ NoDup branches
    /\ forall d,
         In d branches
         <-> prefilter_keeps "a.*" d = true
             /\ exists metric rest,
                  In metric ["a.b.c"; "a.b.d"; "x"]
                  /\ metric = d ++ String "." rest.
Proof.
  apply (X8_metrics_to_nodes (nodup string_dec)).
  intros l. split; [apply NoDup_nodup | intros x; apply nodup_In].
Defined.

(** ** The compiled text of patterns without backslash and bracket *)

Module TextFacts.
Import Re.

Lemma flushed_text token tmp ans :
  pending_clean token tmp ->
  compile_loop ans (flushed token tmp) = Ok (ans ++ escape tmp).
Proof.
  intros [[-> ->] | ->]; cbn; [now rewrite append_nil_r | reflexivity].
Qed.

Lemma emit_text token tmp (t : TokenType) r text rest_text whole :
  pending_clean token tmp ->
  (forall ans data, compile_loop ans [(Some t, data)] = Ok (ans ++ text)) ->
  t <> LITERAL ->
  (exists l, r = Ok l
             /\ forall ans, compile_loop ans l = Ok (ans ++ rest_text)) ->
  whole = escape tmp ++ text ++ rest_text ->
  exists l,
    yield (flushed token tmp ++ [(Some t, Some EmptyString)])%list r = Ok l
    /\ forall ans, compile_loop ans l = Ok (ans ++ whole).
Proof.
  intros Hp Ht _ (l & -> & Hl) ->. eexists. split; [reflexivity|].
  intros ans. rewrite !CompilerFacts.compile_loop_app.
  rewrite (flushed_text _ _ _ Hp). cbn [bind].
  rewrite Ht. cbn [bind]. rewrite Hl. now rewrite !append_assoc.
Qed.

Lemma regex_text_star d rest :
  Ascii.eqb d "*" = false ->
  regex_text (String "*" (String d rest))
  = "[^.]*" ++ regex_text (String d rest).
Proof.
  intros H. cbn [regex_text]. cbn [Ascii.eqb Bool.eqb]. now rewrite H.
Qed.

Lemma loop_text (n : nat) : forall glob tmp token,
  (String.length glob <= n)%nat ->
  char_in "\" glob = false ->
  char_in "[" glob = false ->
  pending_clean token tmp ->
  exists l, tokenize_loop false false tmp token glob = Ok l
            /\ forall ans,
                 compile_loop ans l
                 = Ok (ans ++ escape tmp ++ regex_text glob).
Proof.
  induction n as [|n IH]; intros [|c rest] tmp token Hlen Hbs Hbr Hp;
    simpl in Hlen; try lia.
  - exists (flushed token tmp). split; [reflexivity|]. intros ans.
    cbn [regex_text]. rewrite append_nil_r. now apply flushed_text.
  - exists (flushed token tmp). split; [reflexivity|]. intros ans.
    cbn [regex_text]. rewrite append_nil_r. now apply flushed_text.
  - assert (Hrest : (String.length rest <= n)%nat) by lia.
    assert (Hbs0 := Hbs). assert (Hbr0 := Hbr).
    cbn [char_in] in Hbs, Hbr.
    apply orb_false_iff in Hbs as [Hc Hbs].
    apply orb_false_iff in Hbr as [Hc' Hbr].
    rewrite Ascii.eqb_sym in Hc. rewrite Ascii.eqb_sym in Hc'.
    assert (Hnone : pending_clean None EmptyString) by (left; now split).
    assert (Ek : kept token tmp = EmptyString).
    { destruct Hp as [[-> ->] | ->]; reflexivity. }
    cbn [tokenize_loop]. rewrite Hc. rewrite andb_true_r.
    destruct (negb (char_in c SPECIAL_CHARS) || Ascii.eqb c "-") eqn:Hlitc.
    { assert (Hl : pending_clean (Some LITERAL) (snoc tmp c)) by now right.
      destruct (IH rest (snoc tmp c) (Some LITERAL) Hrest Hbs Hbr Hl)
        as (l & El & Hs).
      exists l. split; [destruct Hp as [[-> ->] | ->]; exact El|].
      intros ans. rewrite Hs. f_equal. f_equal.
      unfold snoc. rewrite PlainFacts.escape_app, append_assoc. f_equal.
      cbn [regex_text].
      assert (Hn : Ascii.eqb c "?" = false /\ Ascii.eqb c "*" = false
                   /\ Ascii.eqb c "]" = false /\ Ascii.eqb c "{" = false
                   /\ Ascii.eqb c "," = false /\ Ascii.eqb c "}" = false).
      { apply orb_true_iff in Hlitc as [H | H].
        - apply negb_true_iff in H. unfold SPECIAL_CHARS in H.
          cbn [char_in] in H. repeat (apply orb_false_iff in H as [? H]).
          repeat split; assumption.
        - apply Ascii.eqb_eq in H. subst c. repeat split; reflexivity. }
      destruct Hn as (-> & -> & -> & -> & -> & ->). reflexivity. }
    apply orb_false_iff in Hlitc as [Hspec Hdash].
    apply negb_false_iff in Hspec.
    fold (flushed token tmp). fold (kept token tmp). rewrite Ek.
    destruct (TokenizerFacts.special_cases c Hspec)
      as [->|[->|[->|[->|[->|[->|[->|[->| ->]]]]]]]];
      try discriminate;
      cbn [Ascii.eqb Bool.eqb];
      try (eapply emit_text;
           [exact Hp | intros; reflexivity | discriminate
           | apply IH; [exact Hrest | exact Hbs | exact Hbr | exact Hnone]
           | reflexivity]).
    destruct rest as [|d rest'].
    + eapply emit_text;
        [exact Hp | intros; reflexivity | discriminate
        | apply IH; [exact Hrest | exact Hbs | exact Hbr | exact Hnone]
        | reflexivity].
    + simpl in Hrest. assert (Hbs1 := Hbs). assert (Hbr1 := Hbr).
      cbn [char_in] in Hbs1, Hbr1.
      apply orb_false_iff in Hbs1 as [_ Hbs'].
      apply orb_false_iff in Hbr1 as [_ Hbr'].
      destruct (Ascii.eqb d "*") eqn:Ed.
      * apply Ascii.eqb_eq in Ed. subst d.
        eapply emit_text;
          [exact Hp | intros; reflexivity | discriminate
          | apply IH; [lia | exact Hbs' | exact Hbr' | exact Hnone]
          | reflexivity].
      * rewrite (regex_text_star _ _ Ed).
        eapply emit_text;
          [exact Hp | intros; reflexivity | discriminate
          | apply IH; [simpl; lia | exact Hbs | exact Hbr | exact Hnone]
          | reflexivity].
Qed.

Lemma glob_to_regex_text glob :
  char_in "\" glob = false ->
  char_in "[" glob = false ->
  glob_to_regex glob = Ok ("^" ++ regex_text glob ++ "$").
Proof.
  intros Hbs Hbr. unfold glob_to_regex, tokenize.
  destruct (loop_text (String.length glob) glob EmptyString None
              (Nat.le_refl _) Hbs Hbr (or_introl (conj eq_refl eq_refl)))
    as (l & -> & Hl).
  cbn [bind]. rewrite Hl. reflexivity.
Qed.

End TextFacts.

(** ** Patterns made of literals and single stars *)

Module StarFacts.
Import Re.

Lemma plain_char_cases c :
  plain_char c = true ->
  Ascii.eqb c "\" = false /\ Ascii.eqb c "[" = false
  /\ Ascii.eqb c "?" = false /\ Ascii.eqb c "*" = false
  /\ Ascii.eqb c "]" = false /\ Ascii.eqb c "{" = false
  /\ Ascii.eqb c "," = false /\ Ascii.eqb c "}" = false.
Proof.
  unfold plain_char. intros H. apply andb_true_iff in H as [Hbs H].
  apply negb_true_iff in Hbs. split; [exact Hbs|].
  apply orb_true_iff in H as [H | H];
    [apply orb_true_iff in H as [H | H]|].
  - apply negb_true_iff in H. unfold SPECIAL_CHARS in H.
    cbn [char_in] in H. repeat (apply orb_false_iff in H as [? H]).
    repeat split; assumption.
  - apply Ascii.eqb_eq in H. subst c. repeat split; reflexivity.
  - apply Ascii.eqb_eq in H. subst c. repeat split; reflexivity.
Qed.

Lemma star_pattern_chars p :
  star_pattern p = true ->
  char_in "\" p = false /\ char_in "[" p = false.
Proof.
  induction p as [|c rest IH]; [now split|].
  cbn [star_pattern char_in]. intros H.
  apply andb_true_iff in H as [Hc Hrest].
  destruct (IH Hrest) as [-> ->]. rewrite !orb_false_r.
  destruct (Ascii.eqb c "*") eqn:E.
  - apply Ascii.eqb_eq in E. subst c. now split.
  - destruct (plain_char_cases c Hc) as (H1 & H2 & _).
    rewrite (Ascii.eqb_sym "\" c), (Ascii.eqb_sym "[" c). now split.
Qed.

(** The compiled text of a star pattern, one character at a time. *)
Lemma regex_text_cons c rest :
  star_pattern (String c rest) = true ->
  regex_text (String c rest)
  = (if Ascii.eqb c "*" then "[^.]*" else escape (String c EmptyString))
    ++ regex_text rest.
Proof.
  cbn [star_pattern]. intros H. apply andb_true_iff in H as [Hc _].
  destruct (Ascii.eqb c "*") eqn:E.
  - apply Ascii.eqb_eq in E. subst c.
    destruct rest as [|d rest']; [reflexivity|].
    apply negb_true_iff in Hc. now apply TextFacts.regex_text_star.
  - destruct (plain_char_cases c Hc) as (_ & _ & H1 & _ & H2 & H3 & H4 & H5).
    cbn [regex_text]. now rewrite H1, E, H2, H3, H4, H5.
Qed.

Lemma parse_star_text p : forall stk al sq tail,
  star_pattern p = true ->
  parse (mkP stk al sq Normal) (regex_text p ++ tail)
  = parse (mkP stk al (rev (items p) ++ sq) Normal) tail.
Proof.
  induction p as [|c rest IH]; intros stk al sq tail Hp; [reflexivity|].
  rewrite (regex_text_cons _ _ Hp), append_assoc.
  cbn [star_pattern] in Hp. apply andb_true_iff in Hp as [_ Hrest].
  cbn [items rev]. rewrite <- app_assoc. cbn [app].
  destruct (Ascii.eqb c "*").
  - rewrite <- (IH stk al (Star not_dot :: sq) tail Hrest). reflexivity.
  - rewrite PlainFacts.parse_escape. cbn [lits rev app]. now apply IH.
Qed.

Lemma compile_star_text p :
  star_pattern p = true ->
  compile ("^" ++ regex_text p ++ "$")
  = Some (cat_list (Bol :: items p ++ [Eol])).
Proof.
  intros Hp. unfold compile. cbn [append parse].
  change (step (mkP [] [] [] Normal) "^") with (Some (mkP [] [] [Bol] Normal)).
  cbn iota. rewrite (parse_star_text _ _ _ _ _ Hp). cbn [parse].
  change (step (mkP [] [] (rev (items p) ++ [Bol]) Normal) "$")
    with (Some (mkP [] [] (Eol :: rev (items p) ++ [Bol]) Normal)).
  cbn iota. unfold close_group. cbn [fold_left rev].
  rewrite rev_app_distr, rev_involutive. reflexivity.
Qed.

(** A starred set takes a prefix made of its members. *)
Lemma star_split cs k s : forall bos,
  star cs k bos s = true ->
  exists pre post b,
    s = pre ++ post /\ all_chars (cset_mem cs) pre = true /\ k b post = true.
Proof.
  induction s as [|c s IH]; intros bos H; cbn [star] in H.
  - rewrite orb_false_r in H. now exists EmptyString, EmptyString, bos.
  - apply orb_true_iff in H as [H | H].
    + now exists EmptyString, (String c s), bos.
    + apply andb_true_iff in H as [Hc H].
      destruct (IH _ H) as (pre & post & b & -> & Hpre & Hk).
      exists (String c pre), post, b. cbn [all_chars append].
      now rewrite Hc, Hpre.
Qed.

Lemma ends_with_lf_tail c s :
  ends_with_lf (String c s) = false -> ends_with_lf s = false.
Proof. destruct s; [reflexivity | easy]. Qed.

Lemma ends_with_lf_suffix pre post :
  ends_with_lf (pre ++ post) = false -> ends_with_lf post = false.
Proof.
  induction pre as [|c pre IH]; [easy|].
  cbn [append]. intros H. apply IH. now apply ends_with_lf_tail in H.
Qed.

Lemma split_cons c s :
  Ascii.eqb c "." = false ->
  exists h t, split s = h :: t /\ split (String c s) = String c h :: t.
Proof.
  intros E. cbn [split]. rewrite E.
  pose proof (ComponentFacts.split_nonempty s).
  destruct (split s) as [|h t]; [contradiction|]. now exists h, t.
Qed.

Lemma split_prefix pre s :
  all_chars (cset_mem not_dot) pre = true ->
  exists h t, split s = h :: t /\ split (pre ++ s) = (pre ++ h) :: t.
Proof.
  induction pre as [|c pre IH]; intros H.
  - cbn [append]. pose proof (ComponentFacts.split_nonempty s).
    destruct (split s) as [|h t]; [contradiction|]. now exists h, t.
  - cbn [all_chars] in H. apply andb_true_iff in H as [Hc H].
    destruct (IH H) as (h & t & Es & Ep). exists h, t. split; [exact Es|].
    unfold not_dot in Hc. rewrite WildcardFacts.not_dot_mem in Hc.
    apply negb_true_iff in Hc.
    cbn [append split]. now rewrite Hc, Ep.
Qed.

(** A match of the compiled star pattern against a name without trailing
    line feed makes the name agree with the pattern, component by
    component. *)
Lemma run_items p : forall m bos,
  star_pattern p = true ->
  ends_with_lf m = false ->
  run (cat_list (items p ++ [Eol])) bos m (fun _ _ => true) = true ->
  Forall2 agrees (split p) (split m).
Proof.
  induction p as [|c rest IH]; intros m bos Hp Hlf Hrun.
  - cbn in Hrun. rewrite andb_true_r in Hrun.
    apply ReFacts.at_end_spec in Hrun as [-> | ->]; [|discriminate].
    constructor; [intros _; reflexivity | constructor].
  - cbn [star_pattern] in Hp. apply andb_true_iff in Hp as [Hc Hrest].
    cbn [items app cat_list fold_right] in Hrun.
    fold (cat_list (items rest ++ [Eol])) in Hrun.
    destruct (Ascii.eqb c "*") eqn:Estar.
    + apply Ascii.eqb_eq in Estar. subst c. cbn [run] in Hrun.
      apply star_split in Hrun as (pre & post & b & -> & Hpre & Hk).
      specialize (IH post b Hrest (ends_with_lf_suffix _ _ Hlf) Hk).
      destruct (split_cons "*" rest eq_refl) as (h & t & Es & ->).
      destruct (split_prefix pre post Hpre) as (h' & t' & Es' & ->).
      rewrite Es, Es' in IH. inversion IH; subst.
      constructor; [|assumption]. intros H. discriminate H.
    + cbn [run cset_mem] in Hrun. destruct m as [|d m']; [discriminate|].
      apply andb_true_iff in Hrun as [Hd Hk].
      apply Ascii.eqb_eq in Hd. subst d.
      specialize (IH m' false Hrest (ends_with_lf_tail _ _ Hlf) Hk).
      destruct (Ascii.eqb c ".") eqn:Edot.
      * apply Ascii.eqb_eq in Edot. subst c. cbn [split Ascii.eqb Bool.eqb].
        constructor; [|exact IH]. intros _. reflexivity.
      * destruct (split_cons c rest Edot) as (h & t & Es & ->).
        destruct (split_cons c m' Edot) as (h' & t' & Es' & ->).
        rewrite Es, Es' in IH. inversion IH as [|? ? ? ? Hh Ht]; subst.
        constructor; [|assumption]. intros H. cbn [all_chars] in H.
        apply andb_true_iff in H as [_ H]. now rewrite (Hh H).
Qed.

Lemma split_star_pattern p :
  star_pattern p = true ->
  Forall (fun c => star_pattern c = true) (split p).
Proof.
  induction p as [|c rest IH]; intros Hp; [now repeat constructor|].
  cbn [star_pattern] in Hp. apply andb_true_iff in Hp as [Hc Hrest].
  specialize (IH Hrest). cbn [split].
  destruct (Ascii.eqb c ".") eqn:Edot; [now constructor|].
  pose proof (ComponentFacts.split_nonempty rest) as Hne.
  destruct (split rest) as [|h t] eqn:Es; [contradiction|].
  inversion IH as [|? ? Hh Ht]; subst. constructor; [|exact Ht].
  cbn [star_pattern]. rewrite Hh, andb_true_r.
  destruct (Ascii.eqb c "*"); [|exact Hc].
  destruct rest as [|d rest']; cbn [split] in Es.
  - injection Es as <- _. reflexivity.
  - destruct (Ascii.eqb d ".").
    + injection Es as <- _. reflexivity.
    + destruct (split rest'); injection Es as <- _; exact Hc.
Qed.

Lemma star_pattern_no_globstar p :
  star_pattern p = true -> ~ In "**" (tl (split p)).
Proof.
  intros Hp Hin. apply split_star_pattern in Hp.
  rewrite Forall_forall in Hp.
  assert (H : In "**" (split p)).
  { destruct (split p); [contradiction | now right]. }
  specialize (Hp _ H). discriminate Hp.
Qed.

Lemma Forall2_nth {A B} (R : A -> B -> Prop) l1 l2 :
  Forall2 R l1 l2 ->
  forall i a, nth_error l1 i = Some a ->
              exists b, nth_error l2 i = Some b /\ R a b.
Proof.
  induction 1 as [|x y l1 l2 Hxy _ IH]; intros [|i] a Hi; try discriminate.
  - injection Hi as <-. now exists y.
  - now apply IH.
Qed.

Lemma sound p m :
  star_pattern p = true ->
  ends_with_lf m = false ->
  matches (cat_list (Bol :: items p ++ [Eol])) m = true ->
  prefilter_keeps p m = true.
Proof.
  intros Hp Hlf Hm. unfold matches in Hm.
  cbn [cat_list fold_right run andb] in Hm.
  fold (cat_list (items p ++ [Eol])) in Hm.
  pose proof (run_items p m true Hp Hlf Hm) as Hagree.
  apply (LiteralFacts.keeps_plain _ _ (star_pattern_no_globstar _ Hp)).
  split; [symmetry; eapply Forall2_length; exact Hagree|].
  intros i c Hi Hc.
  destruct (Forall2_nth _ _ _ Hagree i c Hi) as (b & Hb & Hcb).
  rewrite Hb. f_equal. apply Hcb.
  pose proof (is_graphite_glob_unfold c) as Hu. rewrite Hc in Hu.
  destruct c; [discriminate | now symmetry].
Qed.

End StarFacts.

(** X9.  For a pattern made only of literal characters, dots and single
    stars, [glob_to_regex] returns a text that [re.compile] accepts, and
    the prefilter keeps every name without trailing line feed that the
    compiled regular expression matches: on such patterns the prefilter has
    no false rejection. *)
Theorem X9_prefilter_sound_on_star_patterns (glob_pattern : string) :
  star_pattern glob_pattern = true ->
  exists text r,
    glob_to_regex glob_pattern = Ok text
    /\ Re.compile text = Some r
    /\ forall metric,
         ends_with_lf metric = false ->
         Re.matches r metric = true ->
         prefilter_keeps glob_pattern metric = true.
Proof.
  intros Hp. destruct (StarFacts.star_pattern_chars _ Hp) as [Hbs Hbr].
  eexists. eexists.
  split; [now apply TextFacts.glob_to_regex_text|].
  split; [now apply StarFacts.compile_star_text|].
  intros metric Hlf Hm. now apply StarFacts.sound.
Qed.

Lemma X9_prefilter_sound_on_star_patterns_witness :
  exists text r,
    glob_to_regex "a.*.c-d*" = Ok text
    /\ Re.compile text = Some r
    /\ forall metric,
         ends_with_lf metric = false ->
         Re.matches r metric = true ->
         prefilter_keeps "a.*.c-d*" metric = true.
Proof.
  apply (X9_prefilter_sound_on_star_patterns "a.*.c-d*"). reflexivity.
Defined.

(** ** Valid patterns compile *)

Module ValidFacts.
Import Re Validator.

Lemma llen_nil_iff {A} (l : list A) : (llen l =? 0) = true -> l = [].
Proof.
  intros H. apply Z.eqb_eq in H. unfold llen in H.
  destruct l; [reflexivity | cbn in H; lia].
Qed.

Lemma parse_valid (n : nat) : forall p stk al sq tail,
  (String.length p <= n)%nat ->
  char_in "\" p = false ->
  char_in "[" p = false ->
  valid_loop (llen stk) p = true ->
  exists al' sq',
    parse (mkP stk al sq Normal) (regex_text p ++ tail)
    = parse (mkP [] al' sq' Normal) tail.
Proof.
  induction n as [|n IH]; intros [|c rest] stk al sq tail Hlen Hbs Hbr Hv;
    simpl in Hlen; try lia.
  - cbn in Hv. apply llen_nil_iff in Hv. subst stk. now exists al, sq.
  - cbn in Hv. apply llen_nil_iff in Hv. subst stk. now exists al, sq.
  - assert (Hrest : (String.length rest <= n)%nat) by lia.
    cbn [char_in] in Hbs, Hbr.
    apply orb_false_iff in Hbs as [Hc Hbs].
    apply orb_false_iff in Hbr as [Hc' Hbr].
    rewrite Ascii.eqb_sym in Hc. rewrite Ascii.eqb_sym in Hc'.
    cbn [regex_text valid_loop] in *.
    destruct (Ascii.eqb c "?") eqn:E1.
    { apply Ascii.eqb_eq in E1. subst c. cbn [Ascii.eqb Bool.eqb] in Hv.
      apply (IH rest stk al (One Any :: sq) tail Hrest Hbs Hbr Hv). }
    destruct (Ascii.eqb c "*") eqn:E2.
    { apply Ascii.eqb_eq in E2. subst c. cbn [Ascii.eqb Bool.eqb] in Hv.
      destruct rest as [|d rest'].
      - apply (IH EmptyString stk al (Star not_dot :: sq) tail Hrest
                 Hbs Hbr Hv).
      - simpl in Hrest. destruct (Ascii.eqb d "*") eqn:Ed.
        + apply Ascii.eqb_eq in Ed. subst d.
          cbn [valid_loop Ascii.eqb Bool.eqb] in Hv.
          cbn [char_in] in Hbs, Hbr.
          apply orb_false_iff in Hbs as [_ Hbs].
          apply orb_false_iff in Hbr as [_ Hbr].
          apply (IH rest' stk al (Star Any :: sq) tail ltac:(lia)
                   Hbs Hbr Hv).
        + apply (IH (String d rest') stk al (Star not_dot :: sq) tail
                   ltac:(simpl; lia) Hbs Hbr Hv). }
    destruct (Ascii.eqb c "]") eqn:E3.
    { apply Ascii.eqb_eq in E3. subst c. cbn [Ascii.eqb Bool.eqb] in Hv.
      apply (IH rest stk al (One (Lit "]") :: sq) tail Hrest Hbs Hbr
               Hv). }
    destruct (Ascii.eqb c "{") eqn:E4.
    { apply Ascii.eqb_eq in E4. subst c.
      apply (IH rest ((al, sq) :: stk) [] [] tail Hrest Hbs Hbr).
      rewrite PrefilterTotal.llen_cons.
      now replace (1 + llen stk) with (llen stk + 1) by lia. }
    destruct (Ascii.eqb c ",") eqn:E5.
    { apply Ascii.eqb_eq in E5. subst c. cbn [Ascii.eqb Bool.eqb] in Hv.
      apply (IH rest stk (cat_list (rev sq) :: al) [] tail Hrest Hbs Hbr
               Hv). }
    destruct (Ascii.eqb c "}") eqn:E6.
    { apply Ascii.eqb_eq in E6. subst c.
      destruct (llen stk - 1 <? 0) eqn:El; [discriminate|].
      apply Z.ltb_ge in El.
      destruct stk as [|[al0 sq0] stk0]; [cbn in El; lia|].
      apply (IH rest stk0 al0 (close_group al sq :: sq0) tail Hrest
               Hbs Hbr).
      rewrite PrefilterTotal.llen_cons in Hv.
      now replace (1 + llen stk0 - 1) with (llen stk0) in Hv by lia. }
    rewrite append_assoc, PlainFacts.parse_escape.
    apply (IH rest stk al _ tail Hrest Hbs Hbr).
    destruct (Ascii.eqb c "."); [|exact Hv].
    destruct (llen stk >? 0); [discriminate | exact Hv].
Qed.

Lemma compile_valid p :
  char_in "\" p = false ->
  char_in "[" p = false ->
  _is_valid_glob p = true ->
  exists r, compile ("^" ++ regex_text p ++ "$") = Some r.
Proof.
  intros Hbs Hbr Hv. unfold compile. cbn [append parse].
  change (step (mkP [] [] [] Normal) "^") with (Some (mkP [] [] [Bol] Normal)).
  cbn iota.
  destruct (parse_valid (String.length p) p [] [] [Bol] "$"
              (Nat.le_refl _) Hbs Hbr Hv) as (al & sq & ->).
  cbn [parse].
  change (step (mkP [] al sq Normal) "$")
    with (Some (mkP [] al (Eol :: sq) Normal)).
  cbn iota. eauto.
Qed.

End ValidFacts.

(** X10.  A pattern that [_is_valid_glob] accepts, that has no backslash
    and no opening bracket, and that has at most 99 opening braces (so at
    most 99 groups, nested at most 99 deep) compiles: [glob_to_regex]
    returns a text that [re.compile] accepts. *)
Theorem X10_valid_pattern_compiles (glob : string) :
  char_in "\" glob = false ->
  char_in "[" glob = false ->
  (count_char "{" glob <= 99)%nat ->
  Validator._is_valid_glob glob = true ->
  exists text r, glob_to_regex glob = Ok text /\ Re.compile text = Some r.
Proof.
  intros Hbs Hbr _ Hv.
  destruct (ValidFacts.compile_valid glob Hbs Hbr Hv) as [r Hr].
  exists ("^" ++ regex_text glob ++ "$"), r.
  split; [now apply TextFacts.glob_to_regex_text | exact Hr].
Qed.

Lemma X10_valid_pattern_compiles_witness :
  exists text r,
    glob_to_regex "a.{b,{c,d}*}.**.?-]" = Ok text
    /\ Re.compile text = Some r.
Proof.
  apply (X10_valid_pattern_compiles "a.{b,{c,d}*}.**.?-]");
    try reflexivity.
  vm_compute. lia.
Defined.

(** ** Literal runs, trailing backslash, plain literals *)

Module EdgeFacts.

Lemma literal_run rest : forall tmp token,
  all_chars literal_char rest = true ->
  pending_clean token tmp ->
  tokenize_loop false false tmp token rest
  = Ok (match rest, token with
        | EmptyString, None => []
        | _, _ => [(Some LITERAL, Some (tmp ++ rest))]
        end).
Proof.
  induction rest as [|c rest IH]; intros tmp token Hall Hp.
  - destruct Hp as [[-> ->] | ->]; cbn; [reflexivity|].
    now rewrite append_nil_r.
  - cbn [all_chars] in Hall. apply andb_true_iff in Hall as [Hc Hrest].
    unfold literal_char in Hc. apply andb_true_iff in Hc as [Hbs Hc].
    apply negb_true_iff in Hbs.
    cbn [tokenize_loop]. rewrite Hbs, andb_true_r, Hc.
    assert (E : match token with
                | Some LITERAL | None =>
                    tokenize_loop false false (snoc tmp c) (Some LITERAL) rest
                | Some _ =>
                    yield [(token, None)]
                      (tokenize_loop false false (snoc EmptyString c)
                         (Some LITERAL) rest)
                end
                = tokenize_loop false false (snoc tmp c) (Some LITERAL) rest).
    { destruct Hp as [[-> _] | ->]; reflexivity. }
    rewrite E, (IH (snoc tmp c) (Some LITERAL) Hrest) by now right.
    rewrite snoc_append. now destruct rest.
Qed.

(** Appending a backslash to a pattern without backslash changes nothing:
    the loop ends in the escaped state and yields nothing for it. *)
Lemma trailing_backslash (n : nat) : forall glob ics tmp token,
  (String.length glob <= n)%nat ->
  char_in "\" glob = false ->
  tokenize_loop false ics tmp token (glob ++ "\")
  = tokenize_loop false ics tmp token glob.
Proof.
  induction n as [|n IH]; intros [|c rest] ics tmp token Hlen Hbs;
    simpl in Hlen; try lia; try reflexivity.
  assert (Hrest : (String.length rest <= n)%nat) by lia.
  cbn [char_in] in Hbs. apply orb_false_iff in Hbs as [Hc Hbs].
  rewrite Ascii.eqb_sym in Hc.
  cbn [append tokenize_loop]. rewrite Hc.
  destruct (negb (char_in c SPECIAL_CHARS)
            || Ascii.eqb c "-" && negb ics).
  { destruct token as [[]|]; now rewrite IH. }
  repeat match goal with
         | |- context [Ascii.eqb c ?x] =>
             destruct (Ascii.eqb c x); [try now rewrite IH|]
         end; try reflexivity.
  - destruct rest as [|d rest']; [reflexivity|].
    cbn [append]. simpl in Hrest. cbn [char_in] in Hbs.
    apply orb_false_iff in Hbs as [Hd Hbs'].
    destruct (Ascii.eqb d "*").
    + rewrite IH by (auto; lia). reflexivity.
    + change (String d (rest' ++ "\")) with (String d rest' ++ "\").
      rewrite IH; [reflexivity | simpl; lia |].
      cbn [char_in]. now rewrite Hd, Hbs'.
  - destruct rest as [|d rest']; [reflexivity|].
    cbn [append]. simpl in Hrest. cbn [char_in] in Hbs.
    apply orb_false_iff in Hbs as [Hd Hbs'].
    destruct (Ascii.eqb d "!").
    + rewrite IH by (auto; lia). reflexivity.
    + change (String d (rest' ++ "\")) with (String d rest' ++ "\").
      rewrite IH; [reflexivity | simpl; lia |].
      cbn [char_in]. now rewrite Hd, Hbs'.
Qed.

Lemma no_brace_valid s :
  all_chars (fun c => negb (char_in c "*?{}[]")) s = true ->
  Validator.valid_loop 0 s = true.
Proof.
  induction s as [|c s IH]; intros H; [reflexivity|].
  cbn [all_chars] in H. apply andb_true_iff in H as [Hc Hs].
  apply negb_true_iff in Hc. cbn [char_in] in Hc.
  repeat (apply orb_false_iff in Hc as [? Hc]).
  cbn [Validator.valid_loop].
  repeat match goal with
         | H : Ascii.eqb c _ = false |- _ => rewrite H; clear H
         end.
  cbn. destruct (Ascii.eqb c "."); now apply IH.
Qed.

End EdgeFacts.

(** X11.  A non-empty pattern made only of literal characters (no
    backslash, no special character other than the dash) is tokenized as a
    single [LITERAL] token that carries the whole pattern, and the empty
    pattern yields no token at all. *)
Theorem X11_literal_run_is_one_token (glob : string) :
  all_chars literal_char glob = true ->
  tokenize glob
  = Ok (match glob with
        | EmptyString => []
        | _ => [(Some LITERAL, Some glob)]
        end).
Proof.
  intros H. unfold tokenize.
  rewrite (EdgeFacts.literal_run glob EmptyString None H)
    by (left; now split).
  now destruct glob.
Qed.

Lemma X11_literal_run_is_one_token_witness :
  tokenize "foo-bar_1" = Ok [(Some LITERAL, Some "foo-bar_1")].
Proof. apply (X11_literal_run_is_one_token "foo-bar_1"). reflexivity. Defined.

(** X12.  A backslash at the very end of a pattern that has no other
    backslash is dropped without a token and without an error: the tokens
    and the compiled text are those of the pattern without it. *)
Theorem X12_trailing_backslash_ignored (glob : string) :
  char_in "\" glob = false ->
  tokenize (glob ++ "\") = tokenize glob
  /\ glob_to_regex (glob ++ "\") = glob_to_regex glob.
Proof.
  intros H.
  assert (E : tokenize (glob ++ "\") = tokenize glob).
  { unfold tokenize.
    now apply (EdgeFacts.trailing_backslash (String.length glob)). }
  split; [exact E|]. unfold glob_to_regex. now rewrite E.
Qed.

Lemma X12_trailing_backslash_ignored_witness :
  tokenize ("a.*" ++ "\") = tokenize "a.*"
  /\ glob_to_regex ("a.*" ++ "\") = glob_to_regex "a.*".
Proof. apply (X12_trailing_backslash_ignored "a.*"). reflexivity. Defined.

(** X13.  A string that [_is_graphite_glob] does not take for a glob is
    always a valid pattern for [_is_valid_glob]. *)
Theorem X13_plain_literal_is_valid (s : string) :
  _is_graphite_glob s = false -> Validator._is_valid_glob s = true.
Proof.
  intros H. pose proof (is_graphite_glob_unfold s) as Hu.
  rewrite H in Hu. cbn [negb] in Hu.
  destruct s as [|c s]; [discriminate|].
  apply EdgeFacts.no_brace_valid. now symmetry.
Qed.

Lemma X13_plain_literal_is_valid_witness :
  Validator._is_valid_glob "a.b-c" = true.
Proof. apply (X13_plain_literal_is_valid "a.b-c"). reflexivity. Defined.

(** X14.  For a pattern without backslash and without opening bracket, the
    two passes of [glob_to_regex] amount to one pass over the characters:
    the result is [^], then for each character in turn its translation
    (a dot for [?], [.*] for a pair of stars, [[^.]*] for a single star,
    parentheses and bar for braces and comma, the closing bracket as it is,
    the escaped character otherwise), then [$]. *)
Theorem X14_glob_to_regex_by_character (glob : string) :
  char_in "\" glob = false ->
  char_in "[" glob = false ->
  glob_to_regex glob = Ok ("^" ++ regex_text glob ++ "$").
Proof. apply TextFacts.glob_to_regex_text. Qed.

Lemma X14_glob_to_regex_by_character_witness :
  glob_to_regex "a-b.{c,d*}.**.?"
  = Ok ("^" ++ regex_text "a-b.{c,d*}.**.?" ++ "$").
Proof.
  apply (X14_glob_to_regex_by_character "a-b.{c,d*}.**.?"); reflexivity.
Defined.

(** X15.  For a pattern made only of literal characters, dots and single
    stars, and names without trailing line feed, filtering with the
    compiled regular expression after the prefilter gives the same names
    as filtering with the regular expression alone. *)
Theorem X15_prefilter_then_regex (metric_names : list string)
    (glob_pattern : string) :
  star_pattern glob_pattern = true ->
  (forall m, In m metric_names -> ends_with_lf m = false) ->
  exists kept,
    glob metric_names glob_pattern = Ok kept
    /\ filter_metrics kept glob_pattern
       = filter_metrics metric_names glob_pattern
    /\ filter_metrics metric_names glob_pattern <> None.
Proof.
  intros Hp Hlf. rewrite PrefilterTotal.glob_filter.
  eexists. split; [reflexivity|].
  destruct (StarFacts.star_pattern_chars _ Hp) as [Hbs Hbr].
  unfold filter_metrics.
  rewrite (TextFacts.glob_to_regex_text _ Hbs Hbr).
  rewrite (StarFacts.compile_star_text _ Hp).
  split; [|discriminate]. f_equal.
  induction metric_names as [|m rest IH]; [reflexivity|].
  assert (IH' := IH (fun x Hx => Hlf x (or_intror Hx))).
  cbn [filter].
  destruct (Re.matches _ m) eqn:Em.
  - rewrite (StarFacts.sound _ _ Hp (Hlf m (or_introl eq_refl)) Em).
    cbn [filter]. now rewrite Em, IH'.
  - destruct (prefilter_keeps glob_pattern m); [|exact IH'].
    cbn [filter]. now rewrite Em.
Qed.

Lemma X15_prefilter_then_regex_witness :
  exists kept,
    glob ["a.b"; "a.b.c"; "x.y"] "a.*" = Ok kept
    /\ filter_metrics kept "a.*"
       = filter_metrics ["a.b"; "a.b.c"; "x.y"] "a.*"
    /\ filter_metrics ["a.b"; "a.b.c"; "x.y"] "a.*" <> None.
Proof.
  apply (X15_prefilter_then_regex ["a.b"; "a.b.c"; "x.y"] "a.*").
  - reflexivity.
  - intros m [<- | [<- | [<- | []]]]; reflexivity.
Defined.

(** ** Plain patterns and whole names *)

Module WholeFacts.

Lemma ends_with_lf_snoc s :
  ends_with_lf (s ++ String Re.LF EmptyString) = true.
Proof.
  induction s as [|c s IH]; [reflexivity|].
  cbn [append ends_with_lf]. rewrite IH.
  now destruct (s ++ String Re.LF EmptyString).
Qed.

End WholeFacts.

(** X16.  For every pattern [glob_to_regex] returns a string that begins
    with [^] and ends with [$]; and for every pattern made only of literal
    characters and dots, the text compiles, the compiled regular expression
    matches the pattern itself, and the only name without trailing line
    feed that it matches is the pattern. *)
Theorem X16_literal_pattern_matches_itself (glob : string) :
  (exists body, glob_to_regex glob = Ok ("^" ++ body ++ "$"))
  /\ (plain_pattern glob = true ->
      exists text r,
        glob_to_regex glob = Ok text
        /\ Re.compile text = Some r
        /\ Re.matches r glob = true
        /\ forall s, ends_with_lf s = false ->
                     Re.matches r s = true -> s = glob).
Proof.
  split; [apply CompilerFacts.glob_to_regex_total|].
  intros Hp. eexists. eexists.
  split; [now apply PlainFacts.plain_glob_to_regex|].
  split; [apply PlainFacts.compile_escape|].
  split.
  - apply PlainFacts.plain_language. now left.
  - intros s Hlf Hm. apply PlainFacts.plain_language in Hm as [-> | ->];
      [reflexivity|].
    rewrite WholeFacts.ends_with_lf_snoc in Hlf. discriminate Hlf.
Qed.

Lemma X16_literal_pattern_matches_itself_witness :
  exists text r,
    glob_to_regex "a.b-c" = Ok text
    /\ Re.compile text = Some r
    /\ Re.matches r "a.b-c" = true
    /\ forall s, ends_with_lf s = false ->
                 Re.matches r s = true -> s = "a.b-c".
Proof.
  apply (proj2 (X16_literal_pattern_matches_itself "a.b-c")). reflexivity.
Defined.
